(** * Timed LRU cache: a shallow embedding of [timed_lru_caching.py]

    The development follows the source file top to bottom:

    - [pyobj]: the Python objects used as keys, cached values and
      arguments;
    - [OrderedDict]: the operations of [collections.OrderedDict] the
      source calls, on an association list kept in recency order
      (head = least recently used, last = most recently used);
    - [TimedLRUCache]: the cache engine ([get], [add], [__len__],
      [clear]);
    - [Wrapper]: [_TimedLRUCacheWrapper] ([__call__], [cache_info],
      [clear]).

    Conventions of the embedding.

    - [time.time()] is an input: the engine operations take the reading
      of the clock as an argument, the wrapper reads it from the state
      of the world in which the wrapped function runs.
    - Timestamps and durations ([float] in the source) are read in two
      ways.  [TimedLRUCache] and [Wrapper] take them as exact rationals
      ([Q]): the statements proved there either assume the outcome of
      the expiry test or survive rounding.  [Binary64] embeds the engine
      again with IEEE binary64 numbers, the arithmetic of Python's
      [float], for the statement that depends on the rounding of
      [ct - time_added].  A Python [int] used as a timestamp is outside
      both.
    - Python exceptions are results [Raise e]; the state reached before
      the exception is kept, as in Python. *)

From Stdlib Require Import List Permutation ZArith QArith String Bool Lia.
From Stdlib Require Floats.
Import ListNotations.

Local Open Scope Z_scope.

(** ** Python values *)

(** The objects that flow through the cache.  [bool] is left out on
    purpose ([True == 1] in Python, so a separate constructor would make
    structural equality differ from [==]); [PyOther] stands for any other
    hashable object, compared by identity. *)
#[warnings="-register-all"]
Inductive pyobj : Type :=
| PyNone
| PyInt (n : Z)
| PyStr (s : string)
| PyTuple (items : list pyobj)
| PyOther (id : nat).

(** [==] on [pyobj]. *)
Fixpoint py_eqb (a b : pyobj) {struct a} : bool :=
  match a, b with
  | PyNone, PyNone => true
  | PyInt x, PyInt y => Z.eqb x y
  | PyStr x, PyStr y => String.eqb x y
  | PyTuple xs, PyTuple ys =>
      (fix all2 (xs ys : list pyobj) {struct xs} : bool :=
         match xs, ys with
         | [], [] => true
         | x :: xs', y :: ys' => py_eqb x y && all2 xs' ys'
         | _, _ => false
         end) xs ys
  | PyOther i, PyOther j => Nat.eqb i j
  | _, _ => false
  end.

(** [x is None] *)
Definition is_None (v : pyobj) : bool :=
  match v with PyNone => true | _ => false end.

(** ** Exceptions and the state-and-exception monad *)

(** [KeyError k] is what dictionary operations raise on a missing key;
    [Failure p] is an exception raised by a wrapped computation, with an
    opaque payload. *)
Inductive exn : Type :=
| KeyError (key : pyobj)
| Failure (payload : pyobj).

Inductive result (A : Type) : Type :=
| Ok (a : A)
| Raise (e : exn).
Arguments Ok {A} a.
Arguments Raise {A} e.

(** A method of an object with state [S]: it returns or raises, and in
    both cases leaves a state behind. *)
Definition M (S A : Type) : Type := S -> result A * S.

Definition ret {S A} (a : A) : M S A := fun s => (Ok a, s).

Definition raise {S A} (e : exn) : M S A := fun s => (Raise e, s).

Definition bind {S A B} (m : M S A) (f : A -> M S B) : M S B :=
  fun s =>
    match m s with
    | (Ok a, s') => f a s'
    | (Raise e, s') => (Raise e, s')
    end.

Definition gets {S A} (f : S -> A) : M S A := fun s => (Ok (f s), s).

Definition modify {S} (f : S -> S) : M S unit := fun s => (Ok tt, f s).

(** Run a method of a component [C] stored inside [S]. *)
Definition zoom {S C A} (proj : S -> C) (upd : C -> S -> S) (m : M C A)
  : M S A :=
  fun s => let (r, c') := m (proj s) in (r, upd c' s).

Declare Scope monad_scope.
Delimit Scope monad_scope with monad.
Notation "x <- m ;; k" := (bind m (fun x => k))
  (at level 61, m at next level, right associativity) : monad_scope.
Notation "m ;; k" := (bind m (fun _ => k))
  (at level 61, right associativity) : monad_scope.

(** ** [collections.OrderedDict] *)

Module OrderedDict.

Section Dict.
Context {V : Type}.

(** Bindings in iteration order: first = oldest position, last = end. *)
Definition t : Type := list (pyobj * V).

Definition keys (d : t) : list pyobj := map fst d.

(** [key in d] *)
Fixpoint contains (key : pyobj) (d : t) : bool :=
  match d with
  | [] => false
  | (k, _) :: d' => py_eqb key k || contains key d'
  end.

(** [d[key]]; [None] is [KeyError]. *)
Fixpoint getitem (key : pyobj) (d : t) : option V :=
  match d with
  | [] => None
  | (k, v) :: d' => if py_eqb key k then Some v else getitem key d'
  end.

(** The dictionary without the binding of [key]. *)
Fixpoint remove (key : pyobj) (d : t) : t :=
  match d with
  | [] => []
  | (k, v) :: d' => if py_eqb key k then d' else (k, v) :: remove key d'
  end.

(** [d.pop(key)]; [None] is [KeyError]. *)
Definition pop (key : pyobj) (d : t) : option (V * t) :=
  match getitem key d with
  | Some v => Some (v, remove key d)
  | None => None
  end.

(** [d[key] = v]: an existing key keeps its position, a new key goes
    to the end. *)
Fixpoint setitem (key : pyobj) (v : V) (d : t) : t :=
  match d with
  | [] => [(key, v)]
  | (k, w) :: d' =>
      if py_eqb key k then (k, v) :: d' else (k, w) :: setitem key v d'
  end.

(** [d.move_to_end(key)]; [None] is [KeyError]. *)
Definition move_to_end (key : pyobj) (d : t) : option t :=
  match getitem key d with
  | Some v => Some (remove key d ++ [(key, v)])
  | None => None
  end.

(** [d.popitem(last=False)]; [None] is [KeyError] (empty dictionary). *)
Definition popitem_first (d : t) : option ((pyobj * V) * t) :=
  match d with
  | [] => None
  | kv :: d' => Some (kv, d')
  end.

(** Keys of a dictionary are pairwise different. *)
Definition wf (d : t) : Prop := NoDup (keys d).

End Dict.

Arguments t V : clear implicits.

End OrderedDict.

(** ** The cache engine *)

(** [_TimedLRUCacheItem]: the timed value held in the cache. *)
Record _TimedLRUCacheItem : Type := Item { value : pyobj; time_added : Q }.

Module TimedLRUCache.

Record t : Type := Build {
  _max_size : option Z;
  _ttl : option Q;
  _cache : OrderedDict.t _TimedLRUCacheItem
}.

Definition set_cache (c : OrderedDict.t _TimedLRUCacheItem) (self : t) : t :=
  Build (_max_size self) (_ttl self) c.

(** [TimedLRUCache(max_size, ttl)] *)
Definition __init__ (max_size : option Z) (ttl : option Q) : t :=
  Build max_size ttl [].

(** [self._max_size and len(self._cache) == self._max_size]: [None]
    and [0] are false in a condition. *)
Definition cap_reached (max_size : option Z)
    (c : OrderedDict.t _TimedLRUCacheItem) : bool :=
  match max_size with
  | None => false
  | Some m => negb (m =? 0) && (Z.of_nat (List.length c) =? m)
  end.

(** [self._ttl and ct - item.time_added >= self._ttl]: [None] and
    [0.0] are false in a condition. *)
Definition expired (ttl : option Q) (ct : Q) (item : _TimedLRUCacheItem)
  : bool :=
  match ttl with
  | None => false
  | Some T => negb (Qeq_bool T 0) && Qle_bool T (ct - time_added item)
  end.

(** Dictionary operations on [self._cache] as methods. *)
Definition cache_getitem (key : pyobj) : M t _TimedLRUCacheItem :=
  fun self =>
    match OrderedDict.getitem key (_cache self) with
    | Some item => (Ok item, self)
    | None => (Raise (KeyError key), self)
    end.

Definition cache_pop (key : pyobj) : M t _TimedLRUCacheItem :=
  fun self =>
    match OrderedDict.pop key (_cache self) with
    | Some (item, c') => (Ok item, set_cache c' self)
    | None => (Raise (KeyError key), self)
    end.

Definition cache_move_to_end (key : pyobj) : M t unit :=
  fun self =>
    match OrderedDict.move_to_end key (_cache self) with
    | Some c' => (Ok tt, set_cache c' self)
    | None => (Raise (KeyError key), self)
    end.

Definition cache_popitem_first : M t (pyobj * _TimedLRUCacheItem) :=
  fun self =>
    match OrderedDict.popitem_first (_cache self) with
    | Some (kv, c') => (Ok kv, set_cache c' self)
    | None => (Raise (KeyError (PyStr "dictionary is empty"%string)), self)
    end.

Definition cache_setitem (key : pyobj) (item : _TimedLRUCacheItem)
  : M t unit :=
  modify (fun self => set_cache (OrderedDict.setitem key item (_cache self)) self).

Local Open Scope monad_scope.

(** [get(self, key)], with [ct] the value of [time.time()]. *)
Definition get (ct : Q) (key : pyobj) : M t pyobj :=
  c <- gets _cache ;;
  if negb (OrderedDict.contains key c) then ret PyNone
  else
    item <- cache_getitem key ;;
    ttl <- gets _ttl ;;
    if expired ttl ct item then
      cache_pop key ;; ret PyNone
    else
      cache_move_to_end key ;; ret (value item).

(** [add(self, key, value, time_added)], with [now] the value that
    [time.time()] has when [time_added] is [None]. *)
Definition add (now : Q) (key val : pyobj) (ts : option Q) : M t unit :=
  let ta := match ts with None => now | Some x => x end in
  max_size <- gets _max_size ;;
  c <- gets _cache ;;
  (if cap_reached max_size c then cache_popitem_first ;; ret tt
   else ret tt) ;;
  cache_setitem key (Item val ta) ;;
  cache_move_to_end key.

(** [len(self)] *)
Definition __len__ : M t Z :=
  gets (fun self => Z.of_nat (List.length (_cache self))).

(** [clear(self)] *)
Definition clear : M t unit := modify (set_cache []).

End TimedLRUCache.

(** ** The memoizing wrapper *)

(** [_TimedLRUCacheInfo] *)
Record _TimedLRUCacheInfo : Type := Info {
  hits : Z;
  misses : Z;
  current_size : Z;
  max_size : option Z
}.

Module Wrapper.

(** [kwargs]: names with their values, in the order of the call. *)
Definition kwargs_t : Type := list (string * pyobj).

(** [args + tuple(kwargs.items())] *)
Definition call_args (args : list pyobj) (kwargs : kwargs_t) : pyobj :=
  PyTuple (args ++ map (fun nv => PyTuple [PyStr (fst nv); snd nv]) kwargs).

Record t : Type := Build {
  _timed_lru_cache : TimedLRUCache.t;
  _hits : Z;
  _misses : Z;
  _max_size : option Z
}.

(** [_TimedLRUCacheWrapper(fn, max_size, ttl)] *)
Definition __init__ (max_size : option Z) (ttl : option Q) : t :=
  Build (TimedLRUCache.__init__ max_size ttl) 0 0 max_size.

Section Wrapped.

(** The world the wrapped function runs in: it determines the clock,
    and a call of the function may change it.  The function does not
    reach the wrapper's own fields. *)
Context {World : Type}.
Variable time : World -> Q.
Variable _wrapped :
  list pyobj -> kwargs_t -> World -> result (pyobj * option Q) * World.

(** What a call acts on.  [invocations] is a ghost field: the
    arguments of every call made to [_wrapped], oldest first. *)
Record state : Type := State {
  self : t;
  world : World;
  invocations : list (list pyobj * kwargs_t)
}.

Definition on_cache {A} (m : M TimedLRUCache.t A) : M state A :=
  zoom (fun s => _timed_lru_cache (self s))
       (fun c s =>
          State (Build c (_hits (self s)) (_misses (self s))
                   (_max_size (self s)))
                (world s) (invocations s))
       m.

Definition on_self (f : t -> t) : M state unit :=
  modify (fun s => State (f (self s)) (world s) (invocations s)).

(** [time.time()] *)
Definition time_time : M state Q := gets (fun s => time (world s)).

(** The call of [self._wrapped] with the arguments of the call. *)
Definition call_wrapped (args : list pyobj) (kwargs : kwargs_t)
  : M state (pyobj * option Q) :=
  fun s =>
    let (r, w') := _wrapped args kwargs (world s) in
    (r, State (self s) w' (invocations s ++ [(args, kwargs)])).

Local Open Scope monad_scope.

(** [__call__]: the wrapper applied to [args] and [kwargs]. *)
Definition __call__ (args : list pyobj) (kwargs : kwargs_t)
  : M state pyobj :=
  let key := call_args args kwargs in
  ct <- time_time ;;
  res <- on_cache (TimedLRUCache.get ct key) ;;
  if is_None res then
    on_self (fun w => Build (_timed_lru_cache w) (_hits w)
                        (_misses w + 1) (_max_size w)) ;;
    r <- call_wrapped args kwargs ;;
    now <- time_time ;;
    on_cache (TimedLRUCache.add now key (fst r) (snd r)) ;;
    ret (fst r)
  else
    on_self (fun w => Build (_timed_lru_cache w) (_hits w + 1)
                        (_misses w) (_max_size w)) ;;
    ret res.

(** [cache_info(self)] *)
Definition cache_info : M state _TimedLRUCacheInfo :=
  n <- on_cache TimedLRUCache.__len__ ;;
  gets (fun s => Info (_hits (self s)) (_misses (self s)) n
                   (_max_size (self s))).

(** [clear(self)] *)
Definition clear : M state unit :=
  on_cache TimedLRUCache.clear ;;
  on_self (fun w => Build (_timed_lru_cache w) 0 0 (_max_size w)).

End Wrapped.

Arguments State {World} self world invocations.

End Wrapper.

(** ** The engine on binary64 timestamps *)

Module Binary64.

Import PrimFloat.

(** [_TimedLRUCacheItem], with [time_added] a binary64 number. *)
Record _TimedLRUCacheItem : Type := Item { value : pyobj; time_added : float }.

Record t : Type := Build {
  _max_size : option Z;
  _ttl : option float;
  _cache : OrderedDict.t _TimedLRUCacheItem
}.

Definition set_cache (c : OrderedDict.t _TimedLRUCacheItem) (self : t) : t :=
  Build (_max_size self) (_ttl self) c.

(** [TimedLRUCache(max_size, ttl)] *)
Definition __init__ (max_size : option Z) (ttl : option float) : t :=
  Build max_size ttl [].

(** [self._max_size and len(self._cache) == self._max_size] *)
Definition cap_reached (max_size : option Z)
    (c : OrderedDict.t _TimedLRUCacheItem) : bool :=
  match max_size with
  | None => false
  | Some m => negb (m =? 0)%Z && (Z.of_nat (List.length c) =? m)%Z
  end.

(** [self._ttl and ct - item.time_added >= self._ttl]: the subtraction
    is rounded to nearest; [None], [0.0] and [-0.0] are false in a
    condition and a NaN is true; [x >= y] is [y <= x], false when either
    is a NaN. *)
Definition expired (ttl : option float) (ct : float)
    (item : _TimedLRUCacheItem) : bool :=
  match ttl with
  | None => false
  | Some T => negb (T =? zero)%float && (T <=? ct - time_added item)%float
  end.

Definition cache_getitem (key : pyobj) : M t _TimedLRUCacheItem :=
  fun self =>
    match OrderedDict.getitem key (_cache self) with
    | Some item => (Ok item, self)
    | None => (Raise (KeyError key), self)
    end.

Definition cache_pop (key : pyobj) : M t _TimedLRUCacheItem :=
  fun self =>
    match OrderedDict.pop key (_cache self) with
    | Some (item, c') => (Ok item, set_cache c' self)
    | None => (Raise (KeyError key), self)
    end.

Definition cache_move_to_end (key : pyobj) : M t unit :=
  fun self =>
    match OrderedDict.move_to_end key (_cache self) with
    | Some c' => (Ok tt, set_cache c' self)
    | None => (Raise (KeyError key), self)
    end.

Definition cache_popitem_first : M t (pyobj * _TimedLRUCacheItem) :=
  fun self =>
    match OrderedDict.popitem_first (_cache self) with
    | Some (kv, c') => (Ok kv, set_cache c' self)
    | None => (Raise (KeyError (PyStr "dictionary is empty"%string)), self)
    end.

Definition cache_setitem (key : pyobj) (item : _TimedLRUCacheItem)
  : M t unit :=
  modify (fun self => set_cache (OrderedDict.setitem key item (_cache self)) self).

Local Open Scope monad_scope.

(** [get(self, key)], with [ct] the value of [time.time()]. *)
Definition get (ct : float) (key : pyobj) : M t pyobj :=
  c <- gets _cache ;;
  if negb (OrderedDict.contains key c) then ret PyNone
  else
    item <- cache_getitem key ;;
    ttl <- gets _ttl ;;
    if expired ttl ct item then
      cache_pop key ;; ret PyNone
    else
      cache_move_to_end key ;; ret (value item).

(** [add(self, key, value, time_added)], with [now] the value that
    [time.time()] has when [time_added] is [None]. *)
Definition add (now : float) (key val : pyobj) (ts : option float)
  : M t unit :=
  let ta := match ts with None => now | Some x => x end in
  max_size <- gets _max_size ;;
  c <- gets _cache ;;
  (if cap_reached max_size c then cache_popitem_first ;; ret tt
   else ret tt) ;;
  cache_setitem key (Item val ta) ;;
  cache_move_to_end key.

(** [len(self)] *)
Definition __len__ : M t Z :=
  gets (fun self => Z.of_nat (List.length (_cache self))).

(** The timestamp [add] gives to the entry. *)
Definition stamp (now : float) (ts : option float) : float :=
  match ts with None => now | Some x => x end.

(** The dictionary after the capacity check of [add]. *)
Definition after_eviction (self : t) : OrderedDict.t _TimedLRUCacheItem :=
  if cap_reached (_max_size self) (_cache self)
  then tl (_cache self) else _cache self.

(** The rational a finite binary64 number stands for ([0] for
    infinities and NaN, which have none). *)
Definition exact (x : float) : Q :=
  match FloatOps.Prim2SF x with
  | SpecFloat.S754_finite s m e =>
      inject_Z (if s then Zneg m else Zpos m) * Qpower 2 e
  | _ => 0
  end.

End Binary64.

(** * Notions used in the statements *)

(** The bindings of the keys other than [key], in order. *)
Definition others {V : Type} (key : pyobj) (d : OrderedDict.t V)
  : OrderedDict.t V :=
  filter (fun kv => negb (py_eqb key (fst kv))) d.

(** The dictionary left by [add]: the binding of [key] is rewritten
    and moved to the end. *)
Definition written (key : pyobj) (item : _TimedLRUCacheItem)
    (c : OrderedDict.t _TimedLRUCacheItem) : OrderedDict.t _TimedLRUCacheItem :=
  OrderedDict.remove key c ++ [(key, item)].

(** The timestamp [add] gives to the entry. *)
Definition stamp (now : Q) (ts : option Q) : Q :=
  match ts with None => now | Some x => x end.

(** The dictionary after the capacity check of [add]: without its head
    when the cap is reached. *)
Definition after_eviction (self : TimedLRUCache.t)
  : OrderedDict.t _TimedLRUCacheItem :=
  if TimedLRUCache.cap_reached (TimedLRUCache._max_size self)
       (TimedLRUCache._cache self)
  then tl (TimedLRUCache._cache self) else TimedLRUCache._cache self.

(** ** Sequences of operations on the engine *)

(** A call of one of the four public operations, with the reading of
    the clock it gets. *)
Inductive op : Type :=
| Get (ct : Q) (key : pyobj)
| Add (now : Q) (key val : pyobj) (ts : option Q)
| Len
| Clear.

(** What a call hands back: a looked-up value, a count, or nothing. *)
Inductive out : Type :=
| Val (v : pyobj)
| Count (n : Z)
| Done.

Definition exec (o : op) : M TimedLRUCache.t out :=
  match o with
  | Get ct key => bind (TimedLRUCache.get ct key) (fun v => ret (Val v))
  | Add now key val ts =>
      bind (TimedLRUCache.add now key val ts) (fun _ => ret Done)
  | Len => bind TimedLRUCache.__len__ (fun n => ret (Count n))
  | Clear => bind TimedLRUCache.clear (fun _ => ret Done)
  end.

(** The outcome of every call of a sequence with the engine it leaves. *)
Fixpoint trace (ops : list op) (self : TimedLRUCache.t)
  : list (result out * TimedLRUCache.t) :=
  match ops with
  | [] => []
  | o :: ops' => exec o self :: trace ops' (snd (exec o self))
  end.

(** The engine after a sequence of calls. *)
Definition run (ops : list op) (self : TimedLRUCache.t) : TimedLRUCache.t :=
  fold_left (fun s o => snd (exec o s)) ops self.

(** ** Insertions *)

(** The arguments of one [add] call. *)
Record insertion : Type := Ins {
  ins_key : pyobj;
  ins_val : pyobj;
  ins_now : Q;
  ins_ts : option Q
}.

Definition add_op (i : insertion) : op :=
  Add (ins_now i) (ins_key i) (ins_val i) (ins_ts i).

(** The binding the call writes. *)
Definition binding (i : insertion) : pyobj * _TimedLRUCacheItem :=
  (ins_key i, Item (ins_val i) (stamp (ins_now i) (ins_ts i))).

(** ** Concrete worlds and computations *)

Module Examples.

Definition a : pyobj := PyStr "a".
Definition b : pyobj := PyStr "b".
Definition c : pyobj := PyStr "c".
Definition d : pyobj := PyStr "d".

(** A world that is just a clock counting seconds. *)
Definition seconds (w : nat) : Q := inject_Z (Z.of_nat w).

(** A computation that returns [7] with no timestamp of its own. *)
Definition seven (args : list pyobj) (kwargs : Wrapper.kwargs_t) (w : nat)
  : result (pyobj * option Q) * nat :=
  (Ok (PyInt 7, None), w).

(** A computation that returns [None]. *)
Definition nothing (args : list pyobj) (kwargs : Wrapper.kwargs_t) (w : nat)
  : result (pyobj * option Q) * nat :=
  (Ok (PyNone, None), w).

(** A computation that works at time [0] and fails afterwards. *)
Definition flaky (args : list pyobj) (kwargs : Wrapper.kwargs_t) (w : nat)
  : result (pyobj * option Q) * nat :=
  match w with
  | O => (Ok (PyInt 7, None), w)
  | S _ => (Raise (Failure (PyStr "boom")), w)
  end.

(** The wrapper state after one call of [flaky] at time [0], seen
    again at time [w]. *)
Definition after_first_call (w : nat) : Wrapper.state :=
  let s1 := snd (Wrapper.__call__ seconds flaky [PyInt 1] []
                   (Wrapper.State (Wrapper.__init__ None (Some 5%Q)) O [])) in
  Wrapper.State (Wrapper.self s1) w (Wrapper.invocations s1).

End Examples.

(** ** Operations on other keys *)

(** The call neither reads nor writes [k] and does not empty the map. *)
Definition avoids (k : pyobj) (o : op) : bool :=
  match o with
  | Get _ key => negb (py_eqb key k)
  | Add _ key _ _ => negb (py_eqb key k)
  | Len => true
  | Clear => false
  end.

(** [k] is bound to [item] with at most [j] entries behind it in the
    map, that is, used more recently than it. *)
Definition recent (k : pyobj) (item : _TimedLRUCacheItem) (j : nat)
    (c : OrderedDict.t _TimedLRUCacheItem) : Prop :=
  exists front back,
    c = front ++ (k, item) :: back
    /\ OrderedDict.contains k front = false
    /\ (List.length back <= j)%nat.

(** The entry the calls [ops] wrote last under [k], unless a [clear]
    came after it; [acc] is the one written before [ops]. *)
Fixpoint last_write (k : pyobj) (ops : list op)
    (acc : option _TimedLRUCacheItem) : option _TimedLRUCacheItem :=
  match ops with
  | [] => acc
  | o :: ops' =>
      last_write k ops'
        (match o with
         | Add now key val ts =>
             if py_eqb key k then Some (Item val (stamp now ts)) else acc
         | Clear => None
         | Get _ _ | Len => acc
         end)
  end.

(** ** The decorator *)

Module Decorator.

Section Decorated.

Context {World : Type}.

(** A function fit for decoration: it returns a value and an optional
    timestamp, or raises. *)
Definition fn_t : Type :=
  list pyobj -> Wrapper.kwargs_t -> World -> result (pyobj * option Q) * World.

(** A [_TimedLRUCacheWrapper] object: the function it holds in
    [_wrapped] and its other fields. *)
Record t : Type := Build { _wrapped : fn_t; fields : Wrapper.t }.

(** [timed_lru_cache(max_size, ttl)]: the decorator [deco], which maps
    [fn] to [_TimedLRUCacheWrapper(fn, max_size=max_size, ttl=ttl)]. *)
Definition timed_lru_cache (max_size : option Z) (ttl : option Q) : fn_t -> t :=
  fun fn => Build fn (Wrapper.__init__ max_size ttl).

(** A call of the object in world [w]; [log] is the ghost record of
    the invocations of [_wrapped] so far. *)
Definition call (time : World -> Q) (obj : t) (args : list pyobj)
    (kwargs : Wrapper.kwargs_t) (w : World)
    (log : list (list pyobj * Wrapper.kwargs_t))
  : result pyobj * Wrapper.state :=
  Wrapper.__call__ time (_wrapped obj) args kwargs
    (Wrapper.State (fields obj) w log).

End Decorated.

End Decorator.

(** ** Sequences of calls of the wrapper *)

Section Calls.

Context {World : Type}.
Variable time : World -> Q.
Variable _wrapped :
  list pyobj -> Wrapper.kwargs_t -> World -> result (pyobj * option Q) * World.

(** One call as a caller makes it: the world moves on by [call_env]
    since the previous call, then the wrapper is applied to the
    arguments. *)
Record call : Type := Call {
  call_env : World -> World;
  call_pos : list pyobj;
  call_named : Wrapper.kwargs_t
}.

Definition call_in (c : call) (s : Wrapper.state)
  : result pyobj * Wrapper.state :=
  Wrapper.__call__ time _wrapped (call_pos c) (call_named c)
    (Wrapper.State (Wrapper.self s) (call_env c (Wrapper.world s))
       (Wrapper.invocations s)).

(** The number of entries the wrapper's engine holds. *)
Definition cache_size (s : Wrapper.state (World := World)) : nat :=
  List.length (TimedLRUCache._cache (Wrapper._timed_lru_cache (Wrapper.self s))).

(** The state after a sequence of calls; an exception of one call does
    not stop the caller from making the next. *)
Definition run_calls (cs : list call) (s : Wrapper.state) : Wrapper.state :=
  fold_left (fun s c => snd (call_in c s)) cs s.

End Calls.

(** ** Concrete binary64 times *)

Module Times.

Import PrimFloat.

(** [2 ** -60] seconds. *)
Definition tiny : float := 0x1p-60%float.

Definition one_second : float := 1%float.

Definition five_seconds : float := 5%float.

End Times.

(** * Facts about Python values *)

(** Induction principle that reaches inside tuples. *)
Lemma pyobj_ind' (P : pyobj -> Prop) :
  P PyNone ->
  (forall n, P (PyInt n)) ->
  (forall s, P (PyStr s)) ->
  (forall items, Forall P items -> P (PyTuple items)) ->
  (forall id, P (PyOther id)) ->
  forall v, P v.
Proof.
  intros HN HI HS HT HO.
  fix IH 1.
  intros [ | n | s | items | id ].
  - exact HN.
  - apply HI.
  - apply HS.
  - apply HT. induction items as [ | x xs IHxs ].
    + constructor.
    + constructor; [ apply IH | exact IHxs ].
  - apply HO.
Qed.

Lemma py_eqb_spec (a b : pyobj) : py_eqb a b = true <-> a = b.
Proof.
  revert b. induction a as [ | n | s | items IH | id ] using pyobj_ind';
    intros [ | n' | s' | items' | id' ]; simpl; try (split; congruence).
  - rewrite Z.eqb_eq. split; congruence.
  - rewrite String.eqb_eq. split; congruence.
  - revert items'. induction IH as [ | x xs Hx _ IHxs ]; intros [ | y ys ];
      try (split; congruence).
    rewrite andb_true_iff, Hx. specialize (IHxs ys).
    split.
    + intros [-> H]. apply IHxs in H. congruence.
    + intros H. injection H as -> ->. split; [ reflexivity | ].
      apply IHxs. reflexivity.
  - rewrite Nat.eqb_eq. split; congruence.
Qed.

Lemma py_eqb_refl (a : pyobj) : py_eqb a a = true.
Proof. apply py_eqb_spec. reflexivity. Qed.

Lemma py_eqb_neq (a b : pyobj) : py_eqb a b = false <-> a <> b.
Proof.
  rewrite <- py_eqb_spec. destruct (py_eqb a b); split; congruence.
Qed.

Lemma py_eqb_sym (a b : pyobj) : py_eqb a b = py_eqb b a.
Proof.
  destruct (py_eqb a b) eqn:E.
  - apply py_eqb_spec in E. subst. symmetry. apply py_eqb_refl.
  - symmetry. apply py_eqb_neq. apply py_eqb_neq in E. congruence.
Qed.

(** * Facts about the dictionary operations *)

Section DictFacts.
Context {V : Type}.
Implicit Types (d : OrderedDict.t V) (k key : pyobj) (v : V).

Import OrderedDict.

Lemma contains_getitem key d :
  contains key d = match getitem key d with Some _ => true | None => false end.
Proof.
  induction d as [ | [k v] d IH ]; simpl; [ reflexivity | ].
  destruct (py_eqb key k); [ reflexivity | exact IH ].
Qed.

Lemma contains_In key d : contains key d = true <-> In key (keys d).
Proof.
  induction d as [ | [k v] d IH ]; simpl.
  - split; [ discriminate | tauto ].
  - rewrite orb_true_iff, IH, py_eqb_spec. split; intros [H | H]; auto.
Qed.

Lemma contains_false_In key d : contains key d = false <-> ~ In key (keys d).
Proof.
  rewrite <- contains_In. destruct (contains key d); split; congruence.
Qed.

Lemma remove_absent key d : contains key d = false -> remove key d = d.
Proof.
  induction d as [ | [k v] d IH ]; simpl; [ reflexivity | ].
  destruct (py_eqb key k); simpl; [ discriminate | ].
  intros H. rewrite IH by exact H. reflexivity.
Qed.

Lemma remove_setitem key v d : remove key (setitem key v d) = remove key d.
Proof.
  induction d as [ | [k w] d IH ]; simpl.
  - rewrite py_eqb_refl. reflexivity.
  - destruct (py_eqb key k) eqn:E; simpl; rewrite E; [ reflexivity | ].
    rewrite IH. reflexivity.
Qed.

Lemma getitem_setitem key v d : getitem key (setitem key v d) = Some v.
Proof.
  induction d as [ | [k w] d IH ]; simpl.
  - rewrite py_eqb_refl. reflexivity.
  - destruct (py_eqb key k) eqn:E; simpl; rewrite E; [ reflexivity | exact IH ].
Qed.

Lemma length_remove key d :
  List.length (remove key d) =
  if contains key d then pred (List.length d) else List.length d.
Proof.
  induction d as [ | [k v] d IH ]; simpl; [ reflexivity | ].
  destruct (py_eqb key k); simpl; [ reflexivity | ].
  rewrite IH. destruct (contains key d) eqn:E; [ | reflexivity ].
  destruct d; [ discriminate | reflexivity ].
Qed.

Lemma length_contains_le key d :
  contains key d = true -> (1 <= List.length d)%nat.
Proof. destruct d; simpl; [ discriminate | lia ]. Qed.

Lemma In_keys_remove k key d : In k (keys (remove key d)) -> In k (keys d).
Proof.
  induction d as [ | [k' v] d IH ]; simpl; [ tauto | ].
  destruct (py_eqb key k'); simpl; tauto.
Qed.

Lemma wf_remove key d : wf d -> wf (remove key d).
Proof.
  unfold wf. induction d as [ | [k v] d IH ]; simpl; intros H.
  - exact H.
  - inversion H as [ | ? ? Hnotin Hd ]; subst.
    destruct (py_eqb key k); simpl; [ exact Hd | ].
    constructor; [ | apply IH; exact Hd ].
    intros Hin. apply Hnotin. eapply In_keys_remove. exact Hin.
Qed.

(** With pairwise different keys, removing a key leaves no binding of it. *)
Lemma contains_remove_same key d : wf d -> contains key (remove key d) = false.
Proof.
  unfold wf. induction d as [ | [k v] d IH ]; simpl; intros H.
  - reflexivity.
  - inversion H as [ | ? ? Hnotin Hd ]; subst.
    destruct (py_eqb key k) eqn:E; simpl.
    + apply py_eqb_spec in E. subst k. apply contains_false_In. exact Hnotin.
    + rewrite E. apply IH. exact Hd.
Qed.

Lemma contains_remove_other k key d :
  k <> key -> contains k (remove key d) = contains k d.
Proof.
  intros Hne. induction d as [ | [k' v] d IH ]; simpl; [ reflexivity | ].
  destruct (py_eqb key k') eqn:E; simpl.
  - apply py_eqb_spec in E. subst k'.
    apply py_eqb_neq in Hne. rewrite Hne. reflexivity.
  - rewrite IH. reflexivity.
Qed.

Lemma getitem_remove_other k key d :
  k <> key -> getitem k (remove key d) = getitem k d.
Proof.
  intros Hne. induction d as [ | [k' v] d IH ]; simpl; [ reflexivity | ].
  destruct (py_eqb key k') eqn:E; simpl.
  - apply py_eqb_spec in E. subst k'.
    apply py_eqb_neq in Hne. rewrite Hne. reflexivity.
  - rewrite IH. reflexivity.
Qed.

Lemma contains_app key d d' :
  contains key (d ++ d') = contains key d || contains key d'.
Proof.
  induction d as [ | [k v] d IH ]; simpl; [ reflexivity | ].
  rewrite IH, orb_assoc. reflexivity.
Qed.

Lemma getitem_app key d d' :
  getitem key (d ++ d') =
  match getitem key d with Some v => Some v | None => getitem key d' end.
Proof.
  induction d as [ | [k v] d IH ]; simpl; [ reflexivity | ].
  destruct (py_eqb key k); [ reflexivity | exact IH ].
Qed.

Lemma remove_app_absent key d d' :
  contains key d = false -> remove key (d ++ d') = d ++ remove key d'.
Proof.
  induction d as [ | [k v] d IH ]; simpl; [ reflexivity | ].
  destruct (py_eqb key k); simpl; [ discriminate | ].
  intros H. rewrite IH by exact H. reflexivity.
Qed.

Lemma others_remove key d : others key (remove key d) = others key d.
Proof.
  induction d as [ | [k v] d IH ]; simpl; [ reflexivity | ].
  destruct (py_eqb key k) eqn:E; simpl; [ reflexivity | ].
  rewrite E. simpl. rewrite IH. reflexivity.
Qed.

Lemma others_app key d d' : others key (d ++ d') = others key d ++ others key d'.
Proof. apply filter_app. Qed.

(** The state of the dictionary after [d[key] = v; d.move_to_end(key)]. *)
Lemma wf_remove_snoc key v d : wf d -> wf (remove key d ++ [(key, v)]).
Proof.
  intros H. unfold wf, keys. rewrite map_app. simpl.
  pose proof (wf_remove key d H) as Hr.
  pose proof (contains_remove_same key d H) as Hc.
  apply contains_false_In in Hc.
  unfold wf, keys in Hr.
  apply NoDup_app; [ exact Hr | repeat constructor; simpl; tauto | ].
  intros x Hx [<- | []]. apply Hc. exact Hx.
Qed.

End DictFacts.

(** * Facts about the engine *)

Section EngineFacts.
Import TimedLRUCache.

Implicit Types (self : t) (key : pyobj) (item : _TimedLRUCacheItem).

(** [get] never raises; what it returns and the state it leaves. *)
Lemma get_eq ct key self :
  get ct key self =
  match OrderedDict.getitem key (_cache self) with
  | None => (Ok PyNone, self)
  | Some item =>
      if expired (_ttl self) ct item
      then (Ok PyNone, set_cache (OrderedDict.remove key (_cache self)) self)
      else (Ok (value item), set_cache (written key item (_cache self)) self)
  end.
Proof.
  unfold get, bind, gets, ret, cache_getitem, cache_pop, cache_move_to_end,
    OrderedDict.pop, OrderedDict.move_to_end, written.
  rewrite contains_getitem.
  destruct (OrderedDict.getitem key (_cache self)) as [item | ] eqn:E; simpl;
    [ | reflexivity ].
  rewrite E. simpl.
  destruct (expired (_ttl self) ct item); simpl; rewrite E; reflexivity.
Qed.

Lemma cap_reached_nonempty m c : cap_reached m c = true -> c <> [].
Proof.
  destruct m as [m | ]; simpl; [ | discriminate ].
  intros H Hc. subst c. apply andb_true_iff in H. destruct H as [H0 H1].
  apply Z.eqb_eq in H1. simpl in H1. subst m. discriminate.
Qed.

(** [add] never raises; the state it leaves. *)
Lemma add_eq now key val ts self :
  add now key val ts self =
  (Ok tt,
   set_cache (written key (Item val (stamp now ts)) (after_eviction self)) self).
Proof.
  unfold after_eviction, add, bind, gets, ret, modify, cache_popitem_first, cache_setitem,
    cache_move_to_end, OrderedDict.move_to_end, OrderedDict.popitem_first,
    written, stamp.
  destruct (cap_reached (_max_size self) (_cache self)) eqn:Hcap.
  - apply cap_reached_nonempty in Hcap.
    destruct (_cache self) as [ | kv c ]; [ congruence | ]. simpl.
    rewrite getitem_setitem, remove_setitem. reflexivity.
  - simpl. rewrite getitem_setitem, remove_setitem. reflexivity.
Qed.

Lemma length_written key item c :
  List.length (written key item c) =
  if OrderedDict.contains key c then List.length c else S (List.length c).
Proof.
  unfold written. rewrite length_app, length_remove. simpl.
  destruct (OrderedDict.contains key c) eqn:E; [ | lia ].
  destruct c; [ discriminate | simpl; lia ].
Qed.

Lemma getitem_written_same key item c :
  OrderedDict.wf c -> OrderedDict.getitem key (written key item c) = Some item.
Proof.
  intros Hwf. unfold written. rewrite getitem_app.
  pose proof (contains_remove_same key c Hwf) as H.
  rewrite contains_getitem in H.
  destruct (OrderedDict.getitem key (OrderedDict.remove key c)); [ discriminate | ].
  simpl. rewrite py_eqb_refl. reflexivity.
Qed.

Lemma remove_written_same key item c :
  OrderedDict.wf c ->
  OrderedDict.remove key (written key item c) = OrderedDict.remove key c.
Proof.
  intros Hwf. unfold written.
  rewrite remove_app_absent by (apply contains_remove_same; exact Hwf).
  simpl. rewrite py_eqb_refl. apply app_nil_r.
Qed.

Lemma contains_written key item k c :
  OrderedDict.contains k (written key item c) =
  py_eqb k key || OrderedDict.contains k c.
Proof.
  unfold written. rewrite contains_app. simpl. rewrite orb_false_r.
  destruct (py_eqb k key) eqn:E.
  - apply orb_true_r.
  - rewrite orb_false_r. apply contains_remove_other.
    apply py_eqb_neq. exact E.
Qed.

Lemma wf_written key item c : OrderedDict.wf c -> OrderedDict.wf (written key item c).
Proof. apply wf_remove_snoc. Qed.

Lemma wf_tl (c : OrderedDict.t _TimedLRUCacheItem) :
  OrderedDict.wf c -> OrderedDict.wf (tl c).
Proof.
  destruct c as [ | kv c ]; simpl; [ auto | ].
  unfold OrderedDict.wf. simpl. intros H. inversion H. assumption.
Qed.

(** Every operation keeps the keys pairwise different. *)
Lemma get_wf ct key self :
  OrderedDict.wf (_cache self) -> OrderedDict.wf (_cache (snd (get ct key self))).
Proof.
  intros Hwf. rewrite get_eq.
  destruct (OrderedDict.getitem key (_cache self)) as [item | ]; [ | exact Hwf ].
  destruct (expired (_ttl self) ct item); simpl.
  - apply wf_remove. exact Hwf.
  - apply wf_written. exact Hwf.
Qed.

Lemma wf_after_eviction self :
  OrderedDict.wf (_cache self) -> OrderedDict.wf (after_eviction self).
Proof.
  intros Hwf. unfold after_eviction.
  destruct (cap_reached (_max_size self) (_cache self));
    [ apply wf_tl | ]; exact Hwf.
Qed.

Lemma add_wf now key val ts self :
  OrderedDict.wf (_cache self) ->
  OrderedDict.wf (_cache (snd (add now key val ts self))).
Proof.
  intros Hwf. rewrite add_eq. simpl. apply wf_written.
  apply wf_after_eviction. exact Hwf.
Qed.

End EngineFacts.

(** * Properties of the engine *)

Section EngineClaims.
Import TimedLRUCache.
Local Open Scope Q_scope.

Lemma expired_config self c ct item :
  expired (_ttl (set_cache c self)) ct item = expired (_ttl self) ct item.
Proof. reflexivity. Qed.

Lemma positive_ttl_expired T ct item :
  0 < T -> expired (Some T) ct item = Qle_bool T (ct - time_added item).
Proof.
  intros HT. unfold expired.
  destruct (Qeq_bool T 0) eqn:E; [ | reflexivity ].
  apply Qeq_bool_iff in E. rewrite E in HT. exfalso. revert HT. apply Qlt_irrefl.
Qed.

(** C3. With [max_size = m > 0] and exactly [m] entries in the map,
    [add] removes the head entry first, whatever the incoming key is:
    the map it leaves is the rest of the map with the key rewritten at
    the end.  So the head key is gone unless it is the incoming key
    itself, and an update of a key found past the head leaves [m - 1]
    entries. *)
Theorem add_at_capacity_evicts_head (self : t) (m : Z)
    (k0 : pyobj) (i0 : _TimedLRUCacheItem)
    (rest : OrderedDict.t _TimedLRUCacheItem)
    (now : Q) (key val : pyobj) (ts : option Q) :
  _max_size self = Some m ->
  (0 < m)%Z ->
  _cache self = (k0, i0) :: rest ->
  Z.of_nat (List.length (_cache self)) = m ->
  OrderedDict.wf (_cache self) ->
  let item := Item val (stamp now ts) in
  let self' := set_cache (OrderedDict.remove key rest ++ [(key, item)]) self in
  add now key val ts self = (Ok tt, self')
  /\ (key <> k0 -> OrderedDict.contains k0 (_cache self') = false)
  /\ (OrderedDict.contains key rest = true ->
      __len__ self' = (Ok (m - 1)%Z, self')).
Proof.
  intros Hmax Hm Hc Hlen Hwf item self'.
  assert (Hcap : cap_reached (_max_size self) (_cache self) = true).
  { rewrite Hmax. simpl. rewrite Hlen, Z.eqb_refl.
    destruct (Z.eqb_spec m 0); [ lia | reflexivity ]. }
  split; [ | split ].
  - rewrite add_eq. unfold after_eviction. rewrite Hcap, Hc. reflexivity.
  - intros Hne. subst self'. simpl.
    fold (written key item rest). rewrite contains_written.
    apply py_eqb_neq in Hne. rewrite py_eqb_sym, Hne. simpl.
    apply contains_false_In.
    rewrite Hc in Hwf. unfold OrderedDict.wf in Hwf. simpl in Hwf.
    inversion Hwf. assumption.
  - intros Hin. unfold __len__, gets. subst self'. simpl.
    fold (written key item rest). rewrite length_written, Hin.
    rewrite Hc in Hlen. simpl in Hlen. do 2 f_equal. lia.
Qed.

(** C8. When [get] returns [None], the bindings of all other keys
    (values, timestamps and their order) and the configuration are as
    before; when the key is not in the map, the whole engine is. *)
Theorem get_absent_frame (ct : Q) (key : pyobj) (self self' : t) :
  get ct key self = (Ok PyNone, self') ->
  others key (_cache self') = others key (_cache self)
  /\ (forall k, k <> key ->
        OrderedDict.getitem k (_cache self') = OrderedDict.getitem k (_cache self))
  /\ _max_size self' = _max_size self
  /\ _ttl self' = _ttl self
  /\ (OrderedDict.contains key (_cache self) = false -> self' = self).
Proof.
  rewrite get_eq, contains_getitem.
  destruct (OrderedDict.getitem key (_cache self)) as [item | ] eqn:E.
  - destruct (expired (_ttl self) ct item); intros H.
    + injection H as <-. simpl. repeat split; try discriminate.
      * apply others_remove.
      * intros k Hk. apply getitem_remove_other. exact Hk.
    + injection H as _ <-. simpl. repeat split; try discriminate.
      * unfold written. rewrite others_app, others_remove. simpl.
        rewrite py_eqb_refl. simpl. apply app_nil_r.
      * intros k Hk. unfold written. rewrite getitem_app.
        rewrite getitem_remove_other by exact Hk.
        destruct (OrderedDict.getitem k (_cache self)); [ reflexivity | ].
        simpl. apply py_eqb_neq in Hk. rewrite Hk. reflexivity.
  - intros H. injection H as <-. repeat split; reflexivity.
Qed.

End EngineClaims.

Section Sequences.
Import TimedLRUCache.

Lemma exec_eq (o : op) (self : t) :
  exec o self =
  match o with
  | Get ct key => (match fst (get ct key self) with
                   | Ok v => Ok (Val v) | Raise e => Raise e end,
                   snd (get ct key self))
  | Add now key val ts =>
      (Ok Done,
       set_cache (written key (Item val (stamp now ts)) (after_eviction self)) self)
  | Len => (Ok (Count (Z.of_nat (List.length (_cache self)))), self)
  | Clear => (Ok Done, set_cache [] self)
  end.
Proof.
  destruct o as [ ct key | now key val ts | | ]; simpl; unfold bind.
  - destruct (get ct key self) as [[v | e] s]; reflexivity.
  - rewrite add_eq. reflexivity.
  - reflexivity.
  - reflexivity.
Qed.

Lemma get_config ct key self :
  _max_size (snd (get ct key self)) = _max_size self
  /\ _ttl (snd (get ct key self)) = _ttl self.
Proof.
  rewrite get_eq.
  destruct (OrderedDict.getitem key (_cache self)) as [item | ];
    [ destruct (expired (_ttl self) ct item) | ]; split; reflexivity.
Qed.

Lemma get_length ct key self :
  (List.length (_cache (snd (get ct key self))) <= List.length (_cache self))%nat.
Proof.
  rewrite get_eq.
  destruct (OrderedDict.getitem key (_cache self)) as [item | ] eqn:E;
    [ | simpl; lia ].
  assert (Hin : OrderedDict.contains key (_cache self) = true)
    by (rewrite contains_getitem, E; reflexivity).
  destruct (expired (_ttl self) ct item); simpl.
  - rewrite length_remove, Hin. lia.
  - rewrite length_written, Hin. lia.
Qed.

Lemma exec_config o self :
  _max_size (snd (exec o self)) = _max_size self
  /\ _ttl (snd (exec o self)) = _ttl self.
Proof.
  rewrite exec_eq. destruct o; simpl; try (split; reflexivity).
  apply get_config.
Qed.

Lemma length_after_eviction self :
  List.length (after_eviction self) =
  if cap_reached (_max_size self) (_cache self)
  then pred (List.length (_cache self)) else List.length (_cache self).
Proof.
  unfold after_eviction.
  destruct (cap_reached (_max_size self) (_cache self)); [ | reflexivity ].
  destruct (_cache self); reflexivity.
Qed.

(** One operation keeps the map within a positive capacity. *)
Lemma exec_within_capacity (C : Z) o self :
  (0 < C)%Z ->
  _max_size self = Some C ->
  (Z.of_nat (List.length (_cache self)) <= C)%Z ->
  (Z.of_nat (List.length (_cache (snd (exec o self)))) <= C)%Z.
Proof.
  intros HC Hmax Hlen. rewrite exec_eq.
  destruct o as [ ct key | now key val ts | | ]; simpl.
  - pose proof (get_length ct key self). lia.
  - rewrite length_written.
    pose proof (length_contains_le key (after_eviction self)) as Hpos.
    rewrite length_after_eviction in *.
    unfold cap_reached in *. rewrite Hmax in *.
    destruct (OrderedDict.contains key (after_eviction self));
      destruct (C =? 0)%Z eqn:E0; simpl in *;
      destruct (Z.of_nat (List.length (_cache self)) =? C)%Z eqn:E1;
      try apply Z.eqb_eq in E0; try apply Z.eqb_neq in E1;
      try apply Z.eqb_eq in E1; lia.
  - exact Hlen.
  - lia.
Qed.

End Sequences.

Section SequenceClaims.
Import TimedLRUCache.

(** Every engine reached from a new one has pairwise different keys. *)
Lemma run_wf (ops : list op) (self : t) :
  OrderedDict.wf (_cache self) -> OrderedDict.wf (_cache (run ops self)).
Proof.
  revert self. induction ops as [ | o ops IH ]; intros self Hwf.
  - exact Hwf.
  - change (run (o :: ops) self) with (run ops (snd (exec o self))).
    apply IH. rewrite exec_eq.
    destruct o as [ ct key | now key val ts | | ]; simpl.
    + apply get_wf. exact Hwf.
    + apply wf_written. apply wf_after_eviction. exact Hwf.
    + exact Hwf.
    + constructor.
Qed.

Lemma trace_within_capacity (C : Z) (ops : list op) (self : t) :
  (0 < C)%Z ->
  _max_size self = Some C ->
  (Z.of_nat (List.length (_cache self)) <= C)%Z ->
  Forall (fun rs =>
            (exists o, fst rs = Ok o)
            /\ (Z.of_nat (List.length (_cache (snd rs))) <= C)%Z
            /\ (forall n, fst rs = Ok (Count n) -> (n <= C)%Z))
         (trace ops self).
Proof.
  intros HC. revert self.
  induction ops as [ | o ops IH ]; intros self Hmax Hlen; simpl.
  - constructor.
  - constructor.
    + split; [ | split ].
      * rewrite exec_eq. destruct o as [ ct key | | | ]; simpl; eauto.
        rewrite get_eq.
        destruct (OrderedDict.getitem key (_cache self)) as [item | ];
          [ destruct (expired (_ttl self) ct item) | ]; simpl; eauto.
      * apply exec_within_capacity; assumption.
      * intros n. rewrite exec_eq.
        destruct o as [ ct key | | | ]; simpl; try discriminate.
        -- destruct (fst (get ct key self)); discriminate.
        -- intros H. injection H as <-. exact Hlen.
    + apply IH.
      * rewrite (proj1 (exec_config o self)). exact Hmax.
      * apply exec_within_capacity; assumption.
Qed.

(** C4. With a positive [max_size = C], after every operation of any
    sequence of [get], [add], [len] and [clear] calls on a new engine
    the operation has returned normally, [len()] is at most [C], and so
    is every count a [len] call returned. *)
Theorem capacity_never_exceeded (C : Z) (ttl : option Q) (ops : list op) :
  (0 < C)%Z ->
  Forall (fun rs =>
            (exists o, fst rs = Ok o)
            /\ (exists n, __len__ (snd rs) = (Ok n, snd rs) /\ (n <= C)%Z)
            /\ (forall n, fst rs = Ok (Count n) -> (n <= C)%Z))
         (trace ops (__init__ (Some C) ttl)).
Proof.
  intros HC.
  pose proof (trace_within_capacity C ops (__init__ (Some C) ttl) HC eq_refl)
    as H.
  simpl in H. specialize (H ltac:(lia)).
  eapply Forall_impl; [ | exact H ].
  intros [r s] (Hok & Hlen & Hcount). simpl in *.
  split; [ exact Hok | split; [ | exact Hcount ] ].
  eexists. split; [ reflexivity | exact Hlen ].
Qed.

(** Engines that differ in configuration only, run side by side. *)
Lemma trace_same_config (m1 m2 : option Z) (T1 T2 : option Q) (ops : list op) :
  (forall c, cap_reached m1 c = cap_reached m2 c) ->
  (forall ct item, expired T1 ct item = expired T2 ct item) ->
  forall c,
    map fst (trace ops (Build m1 T1 c)) = map fst (trace ops (Build m2 T2 c))
    /\ map (fun rs => _cache (snd rs)) (trace ops (Build m1 T1 c)) =
       map (fun rs => _cache (snd rs)) (trace ops (Build m2 T2 c)).
Proof.
  intros Hcap Hexp.
  induction ops as [ | o ops IH ]; intros c; simpl; [ split; reflexivity | ].
  assert (Hstep : exists r c',
             exec o (Build m1 T1 c) = (r, Build m1 T1 c')
             /\ exec o (Build m2 T2 c) = (r, Build m2 T2 c')).
  { rewrite !exec_eq. destruct o as [ ct key | now key val ts | | ].
    - rewrite !get_eq. simpl.
      destruct (OrderedDict.getitem key c) as [item | ]; simpl.
      + rewrite Hexp. destruct (expired T2 ct item); simpl;
          do 2 eexists; split; reflexivity.
      + do 2 eexists; split; reflexivity.
    - unfold after_eviction. simpl. rewrite Hcap.
      do 2 eexists; split; reflexivity.
    - do 2 eexists; split; reflexivity.
    - do 2 eexists; split; reflexivity. }
  destruct Hstep as (r & c' & -> & ->). simpl.
  destruct (IH c') as [-> ->]. split; reflexivity.
Qed.

(** C10. [max_size = 0] behaves as [max_size = None], and [ttl = 0] as
    [ttl = None]: on any sequence of operations, from any contents,
    the two engines return the same results and hold the same map
    after every operation.  In particular with [max_size = 0] an [add]
    of a new key always makes the map one longer, and with [ttl = 0] a
    [get] of a key in the map returns its value at any time. *)
Theorem zero_is_not_configured (ops : list op)
    (c : OrderedDict.t _TimedLRUCacheItem)
    (m : option Z) (T : option Q) :
  (map fst (trace ops (Build (Some 0%Z) T c)) = map fst (trace ops (Build None T c))
   /\ map (fun rs => _cache (snd rs)) (trace ops (Build (Some 0%Z) T c)) =
      map (fun rs => _cache (snd rs)) (trace ops (Build None T c)))
  /\ (map fst (trace ops (Build m (Some 0%Q) c)) = map fst (trace ops (Build m None c))
      /\ map (fun rs => _cache (snd rs)) (trace ops (Build m (Some 0%Q) c)) =
         map (fun rs => _cache (snd rs)) (trace ops (Build m None c)))
  /\ (forall now key val ts,
        OrderedDict.contains key c = false ->
        List.length (_cache (snd (add now key val ts (Build (Some 0%Z) T c)))) =
        S (List.length c))
  /\ (forall ct key item,
        OrderedDict.getitem key c = Some item ->
        fst (get ct key (Build m (Some 0%Q) c)) = Ok (value item)).
Proof.
  split; [ | split; [ | split ] ].
  - apply trace_same_config; reflexivity.
  - apply trace_same_config; reflexivity.
  - intros now key val ts Hc. rewrite add_eq. simpl.
    rewrite length_written. unfold after_eviction. simpl. rewrite Hc.
    reflexivity.
  - intros ct key item Hget. rewrite get_eq. simpl. rewrite Hget.
    reflexivity.
Qed.

End SequenceClaims.

Section Recency.
Import TimedLRUCache.

Lemma run_app (ops1 ops2 : list op) (self : t) :
  run (ops1 ++ ops2) self = run ops2 (run ops1 self).
Proof. apply fold_left_app. Qed.

Lemma run_cons (o : op) (ops : list op) (self : t) :
  run (o :: ops) self = run ops (snd (exec o self)).
Proof. reflexivity. Qed.

Lemma run_nil (self : t) : run [] self = self.
Proof. reflexivity. Qed.

Lemma exec_add_op (i : insertion) (self : t) :
  snd (exec (add_op i) self) =
  set_cache (written (ins_key i) (snd (binding i)) (after_eviction self)) self.
Proof. rewrite exec_eq. reflexivity. Qed.

Lemma keys_binding (l : list insertion) :
  OrderedDict.keys (map binding l) = map ins_key l.
Proof. unfold OrderedDict.keys. rewrite map_map. reflexivity. Qed.

(** Adding new keys below the cap appends them in order. *)
Lemma run_adds_below_cap (C : Z) (T : option Q) (l : list insertion) :
  forall c : OrderedDict.t _TimedLRUCacheItem,
    NoDup (OrderedDict.keys c ++ map ins_key l) ->
    (Z.of_nat (List.length c + List.length l) <= C)%Z ->
    run (map add_op l) (Build (Some C) T c) =
    Build (Some C) T (c ++ map binding l).
Proof.
  induction l as [ | i l IH ]; intros c Hnd Hlen.
  - simpl. rewrite app_nil_r. reflexivity.
  - cbn [map]. rewrite run_cons, exec_add_op. unfold after_eviction.
    cbn [_max_size _cache cap_reached].
    assert (Hcap : ((Z.of_nat (List.length c)) =? C)%Z = false).
    { apply Z.eqb_neq. simpl in Hlen. lia. }
    rewrite Hcap, andb_false_r.
    assert (Hfresh : OrderedDict.contains (ins_key i) c = false).
    { apply contains_false_In. intros Hin.
      apply NoDup_remove_2 in Hnd. apply Hnd.
      apply in_or_app. left. exact Hin. }
    unfold written. rewrite remove_absent by exact Hfresh.
    unfold set_cache. cbn [_max_size _ttl].
    replace (ins_key i, snd (binding i)) with (binding i) by reflexivity.
    rewrite IH.
    + rewrite <- app_assoc. reflexivity.
    + unfold OrderedDict.keys. rewrite map_app. simpl.
      rewrite <- app_assoc. simpl.
      apply NoDup_Add with (a := ins_key i) (l := OrderedDict.keys c ++ map ins_key l).
      * apply Add_app.
      * split.
        -- apply NoDup_remove_1 in Hnd. exact Hnd.
        -- apply NoDup_remove_2 in Hnd. exact Hnd.
    + rewrite length_app. simpl in *. lia.
Qed.

(** Adding a new key to a full map drops the head. *)
Lemma add_new_at_cap (C : Z) (T : option Q) (i : insertion)
    (c : OrderedDict.t _TimedLRUCacheItem) :
  (0 < C)%Z ->
  Z.of_nat (List.length c) = C ->
  OrderedDict.contains (ins_key i) c = false ->
  run [add_op i] (Build (Some C) T c) = Build (Some C) T (tl c ++ [binding i]).
Proof.
  intros HC Hlen Hfresh. rewrite run_cons, run_nil, exec_add_op.
  unfold after_eviction.
  cbn [_max_size _cache cap_reached].
  rewrite Hlen, Z.eqb_refl.
  destruct (Z.eqb_spec C 0) as [ -> | _ ]; [ lia | ]. simpl.
  unfold written. rewrite remove_absent; [ reflexivity | ].
  destruct c as [ | [k v] c ]; [ reflexivity | ].
  simpl in *. apply orb_false_iff in Hfresh. tauto.
Qed.

(** A [get] of the head key of a map without TTL moves it to the end. *)
Lemma get_head_no_ttl (m : option Z) (ct : Q) (k : pyobj)
    (item : _TimedLRUCacheItem) (c : OrderedDict.t _TimedLRUCacheItem) :
  get ct k (Build m None ((k, item) :: c)) =
  (Ok (value item), Build m None (c ++ [(k, item)])).
Proof.
  rewrite get_eq. simpl. rewrite py_eqb_refl. simpl.
  unfold written. simpl. rewrite py_eqb_refl. reflexivity.
Qed.

End Recency.

Section RecencyClaims.
Import TimedLRUCache.

Lemma exec_get_snd (ct : Q) (key : pyobj) (self : t) :
  snd (exec (Get ct key) self) = snd (get ct key self).
Proof. rewrite exec_eq. reflexivity. Qed.

Lemma fresh_in_bindings (key : pyobj) (l : list insertion) :
  ~ In key (map ins_key l) -> OrderedDict.contains key (map binding l) = false.
Proof. intros H. apply contains_false_In. rewrite keys_binding. exact H. Qed.

(** Filling a new engine of capacity [N] with [N] different keys. *)
Lemma run_fill (N : nat) (T : option Q) (l : list insertion) :
  NoDup (map ins_key l) ->
  (List.length l <= N)%nat ->
  run (map add_op l) (__init__ (Some (Z.of_nat N)) T) =
  Build (Some (Z.of_nat N)) T (map binding l).
Proof.
  intros Hnd Hlen. unfold __init__.
  rewrite run_adds_below_cap; [ reflexivity | exact Hnd | simpl; lia ].
Qed.

(** C7, as amended.  On a new engine with [max_size = N] and no TTL,
    adding [N + 1] different keys leaves exactly the keys after the
    first, in insertion order.  If the first key is read by [get] once
    the second key is in the map, the last [add] removes the second
    key instead and the first key stays, placed by the time of its
    read. *)
Theorem lru_eviction_order (N : nat) (first last : insertion)
    (middle : list insertion) :
  List.length (first :: middle) = N ->
  NoDup (map ins_key (first :: middle ++ [last])) ->
  let init := __init__ (Some (Z.of_nat N)) None in
  _cache (run (map add_op (first :: middle ++ [last])) init) =
    map binding (middle ++ [last])
  /\ (forall (second : insertion) (before after : list insertion) (ct : Q),
        middle = second :: before ++ after ->
        _cache (run (map add_op (first :: second :: before)
                     ++ Get ct (ins_key first)
                     :: map add_op (after ++ [last])) init) =
        map binding (before ++ first :: after ++ [last])).
Proof.
  intros Hlen Hnd init. subst init.
  assert (HN : (0 < Z.of_nat N)%Z) by (simpl in Hlen; lia).
  change (first :: middle ++ [last]) with ((first :: middle) ++ [last]) in Hnd.
  rewrite map_app in Hnd. simpl map in Hnd.
  pose proof (NoDup_remove_1 _ _ _ Hnd) as HndK.
  pose proof (NoDup_remove_2 _ _ _ Hnd) as HlastK.
  rewrite app_nil_r in HndK, HlastK.
  split.
  - change (first :: middle ++ [last]) with ((first :: middle) ++ [last]).
    rewrite map_app, run_app.
    rewrite run_fill by (try exact HndK; lia).
    cbn [map]. rewrite add_new_at_cap.
    + simpl. rewrite map_app. reflexivity.
    + exact HN.
    + simpl. rewrite length_map. simpl in Hlen. lia.
    + apply (fresh_in_bindings _ (first :: middle)). exact HlastK.
  - intros second before after ct ->.
    rewrite run_app.
    assert (Hnd1 : NoDup (map ins_key (first :: second :: before))).
    { simpl in HndK |- *. rewrite map_app in HndK.
      change (ins_key first :: ins_key second :: map ins_key before ++ map ins_key after)
        with ((ins_key first :: ins_key second :: map ins_key before) ++ map ins_key after)
        in HndK.
      apply NoDup_app_remove_r in HndK. exact HndK. }
    rewrite run_fill; [ | exact Hnd1 | ].
    2:{ simpl in Hlen |- *. rewrite length_app in Hlen. lia. }
    rewrite run_cons, exec_get_snd. cbn [map].
    unfold binding at 1. rewrite get_head_no_ttl. cbn [snd].
    fold (binding first).
    rewrite map_app, run_app.
    change (binding second :: map binding before)
      with (map binding (second :: before)).
    replace (map binding (second :: before) ++ [binding first])
      with (map binding ((second :: before) ++ [first]))
      by (rewrite map_app; reflexivity).
    assert (Hperm : forall k,
               In k (map ins_key (((second :: before) ++ [first]) ++ after)) ->
               In k (map ins_key (first :: (second :: before) ++ after))).
    { intros k. simpl. rewrite !map_app, !in_app_iff. simpl. tauto. }
    rewrite run_adds_below_cap.
    + cbn [map]. rewrite add_new_at_cap.
      * simpl. rewrite !map_app. simpl. rewrite !map_app, <- !app_assoc.
        reflexivity.
      * exact HN.
      * rewrite length_app, !length_map, !length_app. simpl.
        simpl in Hlen. rewrite length_app in Hlen. lia.
      * rewrite <- map_app. apply fresh_in_bindings.
        intros Hin. apply HlastK. apply Hperm. exact Hin.
    + rewrite keys_binding, <- map_app.
      apply (Permutation_NoDup (l := map ins_key (first :: (second :: before) ++ after)));
        [ | exact HndK ].
      apply Permutation_map.
      rewrite <- app_assoc.
      apply Permutation_cons_app. reflexivity.
    + rewrite length_map, length_app. simpl.
      simpl in Hlen. rewrite length_app in Hlen. lia.
Qed.

End RecencyClaims.

(** * Facts about the wrapper *)

Section WrapperFacts.
Import Wrapper.

Context {World : Type}.
Variable time : World -> Q.
Variable f : list pyobj -> kwargs_t -> World -> result (pyobj * option Q) * World.

Implicit Types (s : state (World := World)) (args : list pyobj)
  (kwargs : kwargs_t).

(** A hit: the counter of hits goes up, nothing else happens. *)
Lemma call_hit args kwargs s res c' :
  TimedLRUCache.get (time (world s)) (call_args args kwargs)
    (_timed_lru_cache (self s)) = (Ok res, c') ->
  is_None res = false ->
  __call__ time f args kwargs s =
  (Ok res,
   State (Build c' (_hits (self s) + 1) (_misses (self s)) (_max_size (self s)))
     (world s) (invocations s)).
Proof.
  intros Hget Hres.
  unfold __call__, bind, time_time, on_cache, on_self, zoom, gets, modify, ret.
  simpl. rewrite Hget. simpl. rewrite Hres. reflexivity.
Qed.

(** A miss followed by a normal return of the wrapped function. *)
Lemma call_miss args kwargs s c' r ts w' :
  TimedLRUCache.get (time (world s)) (call_args args kwargs)
    (_timed_lru_cache (self s)) = (Ok PyNone, c') ->
  f args kwargs (world s) = (Ok (r, ts), w') ->
  __call__ time f args kwargs s =
  (Ok r,
   State (Build (snd (TimedLRUCache.add (time w') (call_args args kwargs) r ts c'))
            (_hits (self s)) (_misses (self s) + 1) (_max_size (self s)))
     w' (invocations s ++ [(args, kwargs)])).
Proof.
  intros Hget Hf.
  unfold __call__, bind, time_time, on_cache, on_self, zoom, gets, modify, ret,
    call_wrapped.
  simpl. rewrite Hget. simpl. rewrite Hf. simpl.
  rewrite add_eq. reflexivity.
Qed.

(** A miss followed by an exception of the wrapped function. *)
Lemma call_miss_raise args kwargs s c' e w' :
  TimedLRUCache.get (time (world s)) (call_args args kwargs)
    (_timed_lru_cache (self s)) = (Ok PyNone, c') ->
  f args kwargs (world s) = (Raise e, w') ->
  __call__ time f args kwargs s =
  (Raise e,
   State (Build c' (_hits (self s)) (_misses (self s) + 1) (_max_size (self s)))
     w' (invocations s ++ [(args, kwargs)])).
Proof.
  intros Hget Hf.
  unfold __call__, bind, time_time, on_cache, on_self, zoom, gets, modify, ret,
    call_wrapped.
  simpl. rewrite Hget. simpl. rewrite Hf. reflexivity.
Qed.

End WrapperFacts.

(** * Properties of the wrapper *)

Section WrapperClaims.
Import Wrapper.

Context {World : Type}.
Variable time : World -> Q.
Variable f : list pyobj -> kwargs_t -> World -> result (pyobj * option Q) * World.

Implicit Types (s : state (World := World)) (args : list pyobj)
  (kwargs : kwargs_t).

Lemma not_None_is_None (v : pyobj) : v <> PyNone -> is_None v = false.
Proof. destruct v; simpl; congruence. Qed.

(** C1, as amended.  On a new wrapper, when the first call's
    computation returns a result other than [None], a second call with
    the same arguments made before that result expires returns the
    same result without calling the computation again: it has been
    called once, and [cache_info()] shows one hit and one miss. *)
Theorem memoized_second_call args kwargs (max_size : option Z)
    (ttl : option Q) (w0 w1 w2 : World) (v : pyobj) (ts : option Q) :
  f args kwargs w0 = (Ok (v, ts), w1) ->
  v <> PyNone ->
  TimedLRUCache.expired ttl (time w2) (Item v (stamp (time w1) ts)) = false ->
  exists s1 s2 info,
    __call__ time f args kwargs (State (__init__ max_size ttl) w0 []) = (Ok v, s1)
    /\ world s1 = w1
    /\ __call__ time f args kwargs (State (self s1) w2 (invocations s1)) = (Ok v, s2)
    /\ invocations s2 = [(args, kwargs)]
    /\ cache_info s2 = (Ok info, s2)
    /\ hits info = 1%Z /\ misses info = 1%Z.
Proof.
  intros Hf Hv Hexp.
  set (key := call_args args kwargs).
  set (item := Item v (stamp (time w1) ts)) in *.
  assert (Hadd : snd (TimedLRUCache.add (time w1) key v ts
                        (TimedLRUCache.__init__ max_size ttl)) =
                 TimedLRUCache.Build max_size ttl [(key, item)]).
  { rewrite add_eq. unfold after_eviction, TimedLRUCache.__init__. simpl.
    destruct (TimedLRUCache.cap_reached max_size []) eqn:E; reflexivity. }
  set (eng := TimedLRUCache.Build max_size ttl [(key, item)]) in *.
  exists (State (Build eng 0 1 max_size) w1 [(args, kwargs)]).
  exists (State (Build eng 1 1 max_size) w2 [(args, kwargs)]).
  exists (Info 1 1 1 max_size).
  split.
  { erewrite call_miss; [ | reflexivity | exact Hf ].
    cbn [self world invocations _hits _misses _max_size __init__ app Z.add].
    change (_timed_lru_cache (__init__ max_size ttl))
      with (TimedLRUCache.__init__ max_size ttl).
    fold key. rewrite Hadd. reflexivity. }
  split; [ reflexivity | ].
  split.
  { erewrite call_hit; [ reflexivity | | apply not_None_is_None; exact Hv ].
    cbn [self world _timed_lru_cache]. fold key.
    rewrite get_eq. subst eng.
    cbn [TimedLRUCache._cache TimedLRUCache._ttl OrderedDict.getitem].
    rewrite py_eqb_refl. rewrite Hexp. unfold written.
    cbn [OrderedDict.remove]. rewrite py_eqb_refl. reflexivity. }
  repeat split.
Qed.

(** C5, as amended.  When the lookup of a call misses and the wrapped
    computation raises, the call raises the same exception, [misses]
    is one more and [hits] is as before; [add] has not run, so the
    engine is as the lookup left it, which is as it was before the
    call when the key was not in the map. *)
Theorem failed_call_writes_nothing args kwargs s (e : exn) (w' : World)
    (c' : TimedLRUCache.t) :
  TimedLRUCache.get (time (world s)) (call_args args kwargs)
    (_timed_lru_cache (self s)) = (Ok PyNone, c') ->
  f args kwargs (world s) = (Raise e, w') ->
  exists s',
    __call__ time f args kwargs s = (Raise e, s')
    /\ _misses (self s') = (_misses (self s) + 1)%Z
    /\ _hits (self s') = _hits (self s)
    /\ _timed_lru_cache (self s') = c'
    /\ (OrderedDict.contains (call_args args kwargs)
          (TimedLRUCache._cache (_timed_lru_cache (self s))) = false ->
        _timed_lru_cache (self s') = _timed_lru_cache (self s)).
Proof.
  intros Hget Hf. eexists.
  split; [ apply (call_miss_raise time f args kwargs s c' e w' Hget Hf) | ].
  simpl. repeat split.
  intros Habsent. rewrite get_eq, contains_getitem in *.
  destruct (OrderedDict.getitem _ _); [ discriminate | ].
  congruence.
Qed.

(** C9. The engine's [clear] leaves an empty map and the configured
    [max_size] and [ttl]; the wrapper's [clear] does that to its
    engine and sets [hits] and [misses] to zero. *)
Theorem clear_resets (e : TimedLRUCache.t) s :
  (exists e',
      TimedLRUCache.clear e = (Ok tt, e')
      /\ TimedLRUCache.__len__ e' = (Ok 0%Z, e')
      /\ TimedLRUCache._max_size e' = TimedLRUCache._max_size e
      /\ TimedLRUCache._ttl e' = TimedLRUCache._ttl e)
  /\ (exists s',
         clear s = (Ok tt, s')
         /\ cache_info s' = (Ok (Info 0 0 0 (_max_size (self s))), s')
         /\ TimedLRUCache._max_size (_timed_lru_cache (self s')) =
            TimedLRUCache._max_size (_timed_lru_cache (self s))
         /\ TimedLRUCache._ttl (_timed_lru_cache (self s')) =
            TimedLRUCache._ttl (_timed_lru_cache (self s))).
Proof.
  split.
  - eexists. split; [ reflexivity | ]. repeat split.
  - eexists. split; [ reflexivity | ]. repeat split.
Qed.

End WrapperClaims.

Section StoredNone.

(** A [get] that finds a [None] value that has not expired: it returns
    [None] and moves the key to the end. *)
Lemma get_stored_None (ct : Q) (k : pyobj) (item : _TimedLRUCacheItem)
    (e : TimedLRUCache.t) :
  OrderedDict.getitem k (TimedLRUCache._cache e) = Some item ->
  value item = PyNone ->
  TimedLRUCache.expired (TimedLRUCache._ttl e) ct item = false ->
  TimedLRUCache.get ct k e =
  (Ok PyNone,
   TimedLRUCache.set_cache
     (OrderedDict.remove k (TimedLRUCache._cache e) ++ [(k, item)]) e).
Proof.
  intros Hget Hval Hexp. rewrite get_eq, Hget, Hexp, Hval. reflexivity.
Qed.

(** C6. After [add(k, None)], a [get(k)] before expiry returns [None],
    which is also what [get] returns for a key that is not in the map;
    yet the entry is still there after the [get], and a [get] that
    finds it moves it to the end of the map.  A wrapper whose engine
    holds such an entry for the key of a call counts the call as a
    miss and calls the wrapped computation. *)
Theorem stored_None_reads_as_absent (e : TimedLRUCache.t) (k : pyobj)
    (now : Q) (ts : option Q) (ct : Q) :
  OrderedDict.wf (TimedLRUCache._cache e) ->
  let item := Item PyNone (stamp now ts) in
  let e1 := snd (TimedLRUCache.add now k PyNone ts e) in
  TimedLRUCache.expired (TimedLRUCache._ttl e) ct item = false ->
  fst (TimedLRUCache.get ct k e1) = Ok PyNone
  /\ (forall k',
        OrderedDict.contains k' (TimedLRUCache._cache e1) = false ->
        TimedLRUCache.get ct k' e1 = (Ok PyNone, e1))
  /\ OrderedDict.getitem k
       (TimedLRUCache._cache (snd (TimedLRUCache.get ct k e1))) = Some item
  /\ (forall e2,
        OrderedDict.getitem k (TimedLRUCache._cache e2) = Some item ->
        TimedLRUCache._ttl e2 = TimedLRUCache._ttl e ->
        TimedLRUCache.get ct k e2 =
        (Ok PyNone,
         TimedLRUCache.set_cache
           (OrderedDict.remove k (TimedLRUCache._cache e2) ++ [(k, item)]) e2))
  /\ (forall (World : Type) (time : World -> Q)
        (f : list pyobj -> Wrapper.kwargs_t -> World ->
             result (pyobj * option Q) * World)
        (s : Wrapper.state) args kwargs,
        Wrapper.call_args args kwargs = k ->
        Wrapper._timed_lru_cache (Wrapper.self s) = e1 ->
        time (Wrapper.world s) = ct ->
        exists r s',
          Wrapper.__call__ time f args kwargs s = (r, s')
          /\ Wrapper._misses (Wrapper.self s') =
             (Wrapper._misses (Wrapper.self s) + 1)%Z
          /\ Wrapper._hits (Wrapper.self s') = Wrapper._hits (Wrapper.self s)
          /\ Wrapper.invocations s' =
             Wrapper.invocations s ++ [(args, kwargs)]).
Proof.
  intros Hwf item e1 Hexp.
  pose proof (wf_after_eviction e Hwf) as Hwf0.
  assert (He1 : e1 = TimedLRUCache.set_cache
                       (written k item (after_eviction e)) e).
  { subst e1. rewrite add_eq. reflexivity. }
  assert (Hitem : OrderedDict.getitem k (TimedLRUCache._cache e1) = Some item).
  { rewrite He1. apply getitem_written_same. exact Hwf0. }
  assert (Hget : forall e2,
             OrderedDict.getitem k (TimedLRUCache._cache e2) = Some item ->
             TimedLRUCache._ttl e2 = TimedLRUCache._ttl e ->
             TimedLRUCache.get ct k e2 =
             (Ok PyNone,
              TimedLRUCache.set_cache
                (OrderedDict.remove k (TimedLRUCache._cache e2) ++ [(k, item)]) e2)).
  { intros e2 H2 Httl. apply get_stored_None;
      [ exact H2 | reflexivity | rewrite Httl; exact Hexp ]. }
  assert (Httl1 : TimedLRUCache._ttl e1 = TimedLRUCache._ttl e)
    by (rewrite He1; reflexivity).
  split; [ rewrite (Hget e1 Hitem Httl1); reflexivity | ].
  split.
  { intros k' Habsent. rewrite get_eq. rewrite contains_getitem in Habsent.
    destruct (OrderedDict.getitem k' (TimedLRUCache._cache e1));
      [ discriminate | reflexivity ]. }
  split.
  { rewrite (Hget e1 Hitem Httl1). cbn [snd TimedLRUCache.set_cache TimedLRUCache._cache].
    apply (getitem_written_same k item). rewrite He1. apply wf_written.
    exact Hwf0. }
  split; [ exact Hget | ].
  intros World time f s args kwargs Hk He Hct.
  pose proof (Hget e1 Hitem Httl1) as Hg.
  rewrite <- He, <- Hct, <- Hk in Hg.
  destruct (f args kwargs (Wrapper.world s)) as [[[r ts'] | ex] w'] eqn:Hf.
  - eexists. eexists. split.
    + apply (call_miss time f args kwargs s _ r ts' w' Hg Hf).
    + repeat split.
  - eexists. eexists. split.
    + apply (call_miss_raise time f args kwargs s _ ex w' Hg Hf).
    + repeat split.
Qed.

End StoredNone.

Section Scenarios.
Import Examples TimedLRUCache.

(** The capacity scenario of the specification: [max_size = 2]. *)
Example scenario_capacity :
  let ops := [Add 0 a (PyInt 1) None; Add 0 b (PyInt 2) None;
              Add 0 c (PyInt 3) None; Get 0 b; Add 0 d (PyInt 4) None] in
  map fst (trace ops (__init__ (Some 2%Z) None)) =
    [Ok Done; Ok Done; Ok Done; Ok (Val (PyInt 2)); Ok Done]
  /\ _cache (run ops (__init__ (Some 2%Z) None)) =
     [(b, Item (PyInt 2) 0); (d, Item (PyInt 4) 0)].
Proof. split; reflexivity. Qed.

(** The expiry scenario of the specification: [ttl = 5]. *)
Example scenario_ttl :
  map fst (trace [Add 0 a (PyInt 1) None; Get 4 a; Get 5 a; Len]
             (__init__ None (Some 5%Q))) =
  [Ok Done; Ok (Val (PyInt 1)); Ok (Val PyNone); Ok (Count 0)].
Proof. reflexivity. Qed.

End Scenarios.

(** * Runs that bound the statements above *)

Section Counterexamples.
Import Examples.

(** C1 as stated ("for every wrapped computation"): a computation that
    returns [None] is called again by the second call, which is a
    second miss. *)
Lemma none_result_is_recomputed :
  let s0 := Wrapper.State (Wrapper.__init__ None None) O [] in
  let s1 := snd (Wrapper.__call__ seconds nothing [PyInt 1] [] s0) in
  let s2 := snd (Wrapper.__call__ seconds nothing [PyInt 1] [] s1) in
  fst (Wrapper.cache_info s2) = Ok (Info 0 2 1 None)
  /\ Wrapper.invocations s2 = [([PyInt 1], []); ([PyInt 1], [])].
Proof. split; reflexivity. Qed.

(** C5 as stated ("the engine's contents are unchanged"): when the
    miss comes from a stale entry, the lookup has removed that entry
    before the computation raises. *)
Lemma failed_call_after_expiry_drops_entry :
  let s := after_first_call 5 in
  let key := Wrapper.call_args [PyInt 1] [] in
  let r := Wrapper.__call__ seconds flaky [PyInt 1] [] s in
  TimedLRUCache._cache (Wrapper._timed_lru_cache (Wrapper.self s)) =
    [(key, Item (PyInt 7) 0)]
  /\ fst r = Raise (Failure (PyStr "boom"))
  /\ TimedLRUCache._cache (Wrapper._timed_lru_cache (Wrapper.self (snd r))) = [].
Proof. repeat split. Qed.

(** C7 as stated: on a new engine with [max_size = N] and no TTL, the
    first of [N + 1] different keys would still be in the map after the
    last [add] whenever a [get] has read it before that [add].  This
    fails with [max_size = 1], where the key just read is the only one
    the next [add] can remove, and with [max_size = 2] when the read
    comes before the second key is added. *)
Lemma read_key_still_evicted :
  ~ (forall (first last : insertion) (before after : list insertion) (ct : Q),
        List.length (first :: before ++ after) = 1%nat ->
        NoDup (map ins_key (first :: before ++ after ++ [last])) ->
        OrderedDict.contains (ins_key first)
          (TimedLRUCache._cache
             (run (map add_op (first :: before)
                   ++ Get ct (ins_key first) :: map add_op (after ++ [last]))
                (TimedLRUCache.__init__ (Some 1%Z) None))) = true)
  /\ ~ (forall (first last : insertion) (before after : list insertion) (ct : Q),
          List.length (first :: before ++ after) = 2%nat ->
          NoDup (map ins_key (first :: before ++ after ++ [last])) ->
          OrderedDict.contains (ins_key first)
            (TimedLRUCache._cache
               (run (map add_op (first :: before)
                     ++ Get ct (ins_key first) :: map add_op (after ++ [last]))
                  (TimedLRUCache.__init__ (Some 2%Z) None))) = true).
Proof.
  split; intros H.
  - specialize (H (Ins a (PyInt 1) 0 None) (Ins b (PyInt 2) 0 None) [] [] 0%Q
                  eq_refl).
    assert (Hnd : NoDup (map ins_key ([Ins a (PyInt 1) 0 None]
                                      ++ [] ++ [Ins b (PyInt 2) 0 None]))).
    { repeat constructor; simpl; intuition discriminate. }
    specialize (H Hnd). vm_compute in H. discriminate H.
  - specialize (H (Ins a (PyInt 1) 0 None) (Ins c (PyInt 3) 0 None) []
                  [Ins b (PyInt 2) 0 None] 0%Q eq_refl).
    assert (Hnd : NoDup (map ins_key ([Ins a (PyInt 1) 0 None]
                                      ++ [Ins b (PyInt 2) 0 None]
                                      ++ [Ins c (PyInt 3) 0 None]))).
    { repeat constructor; simpl; intuition discriminate. }
    specialize (H Hnd). vm_compute in H. discriminate H.
Qed.

End Counterexamples.

(** * Instances of the theorems *)

Section Witnesses.
Import Examples.

(** C1 on a wrapper with [max_size = 2] and [ttl = 5]: calls at times
    [0] and [3] of a computation that returns [7]. *)
Lemma memoized_second_call_witness :
  exists s1 s2 info,
    Wrapper.__call__ seconds seven [PyInt 1] []
      (Wrapper.State (Wrapper.__init__ (Some 2%Z) (Some 5%Q)) 0%nat []) =
      (Ok (PyInt 7), s1)
    /\ Wrapper.world s1 = 0%nat
    /\ Wrapper.__call__ seconds seven [PyInt 1] []
         (Wrapper.State (Wrapper.self s1) 3%nat (Wrapper.invocations s1)) =
       (Ok (PyInt 7), s2)
    /\ Wrapper.invocations s2 = [([PyInt 1], [])]
    /\ Wrapper.cache_info s2 = (Ok info, s2)
    /\ hits info = 1%Z /\ misses info = 1%Z.
Proof.
  apply (memoized_second_call seconds seven [PyInt 1] [] (Some 2%Z)
           (Some 5%Q) 0%nat 0%nat 3%nat (PyInt 7) None).
  - reflexivity.
  - discriminate.
  - reflexivity.
Defined.

(** C3 with [max_size = 2]: an update of [b] in the full map [a, b]
    removes [a]. *)
Lemma add_at_capacity_evicts_head_witness :
  TimedLRUCache.add 0 b (PyInt 3) None
    (TimedLRUCache.Build (Some 2%Z) None
       [(a, Item (PyInt 1) 0); (b, Item (PyInt 2) 0)]) =
  (Ok tt, TimedLRUCache.Build (Some 2%Z) None [(b, Item (PyInt 3) 0)]).
Proof.
  refine (proj1 (add_at_capacity_evicts_head
                   (TimedLRUCache.Build (Some 2%Z) None
                      [(a, Item (PyInt 1) 0); (b, Item (PyInt 2) 0)])
                   2%Z a (Item (PyInt 1) 0) [(b, Item (PyInt 2) 0)]
                   0 b (PyInt 3) None eq_refl eq_refl eq_refl eq_refl _)).
  repeat constructor; simpl; intuition discriminate.
Defined.

(** C4 with [max_size = 1]: two additions and a count. *)
Lemma capacity_never_exceeded_witness :
  Forall (fun rs =>
            (exists o, fst rs = Ok o)
            /\ (exists n, TimedLRUCache.__len__ (snd rs) = (Ok n, snd rs)
                          /\ (n <= 1)%Z)
            /\ (forall n, fst rs = Ok (Count n) -> (n <= 1)%Z))
         (trace [Add 0 a (PyInt 1) None; Add 0 b (PyInt 2) None; Len]
            (TimedLRUCache.__init__ (Some 1%Z) None)).
Proof.
  apply (capacity_never_exceeded 1%Z None
           [Add 0 a (PyInt 1) None; Add 0 b (PyInt 2) None; Len]).
  reflexivity.
Defined.

(** C5: a call with new arguments whose computation raises. *)
Lemma failed_call_writes_nothing_witness :
  exists s',
    Wrapper.__call__ seconds flaky [PyInt 2] [] (after_first_call 1) =
      (Raise (Failure (PyStr "boom")), s')
    /\ Wrapper._misses (Wrapper.self s') = 2%Z
    /\ Wrapper._hits (Wrapper.self s') = 0%Z
    /\ Wrapper._timed_lru_cache (Wrapper.self s') =
       Wrapper._timed_lru_cache (Wrapper.self (after_first_call 1))
    /\ (OrderedDict.contains (Wrapper.call_args [PyInt 2] [])
          (TimedLRUCache._cache
             (Wrapper._timed_lru_cache (Wrapper.self (after_first_call 1)))) =
        false ->
        Wrapper._timed_lru_cache (Wrapper.self s') =
        Wrapper._timed_lru_cache (Wrapper.self (after_first_call 1))).
Proof.
  apply (failed_call_writes_nothing seconds flaky [PyInt 2] []
           (after_first_call 1) (Failure (PyStr "boom")) 1%nat
           (Wrapper._timed_lru_cache (Wrapper.self (after_first_call 1)))).
  - reflexivity.
  - reflexivity.
Defined.

(** C6 with [ttl = 5]: [None] stored at time [0], read at time [1]. *)
Lemma stored_None_reads_as_absent_witness :
  fst (TimedLRUCache.get 1 a
         (snd (TimedLRUCache.add 0 a PyNone None
                 (TimedLRUCache.__init__ None (Some 5%Q))))) = Ok PyNone.
Proof.
  refine (proj1 (stored_None_reads_as_absent
                   (TimedLRUCache.__init__ None (Some 5%Q)) a 0 None 1 _ _)).
  - constructor.
  - reflexivity.
Defined.

(** C7 with [max_size = 2]: [a] and [b] added, [a] read, [c] added. *)
Lemma lru_eviction_order_witness :
  TimedLRUCache._cache
    (run (map add_op [Ins a (PyInt 1) 0 None; Ins b (PyInt 2) 0 None]
          ++ Get 0 a :: map add_op ([] ++ [Ins c (PyInt 3) 0 None]))
       (TimedLRUCache.__init__ (Some 2%Z) None)) =
  map binding [Ins a (PyInt 1) 0 None; Ins c (PyInt 3) 0 None].
Proof.
  refine (proj2 (lru_eviction_order 2 (Ins a (PyInt 1) 0 None)
                   (Ins c (PyInt 3) 0 None) [Ins b (PyInt 2) 0 None]
                   eq_refl _)
            (Ins b (PyInt 2) 0 None) [] [] 0%Q eq_refl).
  repeat constructor; simpl; intuition discriminate.
Defined.

(** C8 with [ttl = 5]: a stale [a] is read next to [b]. *)
Lemma get_absent_frame_witness :
  others a (TimedLRUCache._cache
              (TimedLRUCache.Build None (Some 5%Q) [(b, Item (PyInt 2) 0)])) =
  others a [(a, Item (PyInt 1) 0); (b, Item (PyInt 2) 0)].
Proof.
  refine (proj1 (get_absent_frame 5 a
                   (TimedLRUCache.Build None (Some 5%Q)
                      [(a, Item (PyInt 1) 0); (b, Item (PyInt 2) 0)])
                   (TimedLRUCache.Build None (Some 5%Q) [(b, Item (PyInt 2) 0)])
                   _)).
  reflexivity.
Defined.

End Witnesses.

(** * Further properties of the engine *)

Section EngineExtras.
Import TimedLRUCache.
Local Open Scope Q_scope.

Implicit Types (self : t) (key k : pyobj) (item : _TimedLRUCacheItem).

Lemma getitem_written_other key item k (c : OrderedDict.t _TimedLRUCacheItem) :
  k <> key -> OrderedDict.getitem k (written key item c) = OrderedDict.getitem k c.
Proof.
  intros Hk. unfold written. rewrite getitem_app.
  rewrite getitem_remove_other by exact Hk.
  destruct (OrderedDict.getitem k c); [ reflexivity | ].
  simpl. apply py_eqb_neq in Hk. rewrite Hk. reflexivity.
Qed.

Lemma others_written key item (c : OrderedDict.t _TimedLRUCacheItem) :
  others key (written key item c) = others key c.
Proof.
  unfold written. rewrite others_app, others_remove. simpl.
  rewrite py_eqb_refl. simpl. apply app_nil_r.
Qed.

(** X1. A value written by [add] is what the next [get] of the key
    returns, unless the entry has expired by then (which cannot happen
    when no TTL is configured); that [get] leaves the engine as it is. *)
Theorem add_then_get self (now : Q) key (val : pyobj) (ts : option Q) (ct : Q) :
  OrderedDict.wf (_cache self) ->
  expired (_ttl self) ct (Item val (stamp now ts)) = false ->
  get ct key (snd (add now key val ts self)) =
  (Ok val, snd (add now key val ts self)).
Proof.
  intros Hwf Hexp. rewrite add_eq. cbn [snd].
  pose proof (wf_after_eviction self Hwf) as Hwf0.
  rewrite get_eq. cbn [_cache set_cache _ttl].
  rewrite getitem_written_same by exact Hwf0.
  rewrite Hexp. cbn [value].
  unfold written at 1. rewrite remove_written_same by exact Hwf0.
  reflexivity.
Qed.

(** X2. [add] touches no binding of another key, except that it drops
    the head of the map when the cap is reached: a key other than the
    incoming one, and other than the head when the cap is reached, has
    the binding it had; and the entries that remain keep their order. *)
Theorem add_keeps_other_keys self (now : Q) key (val : pyobj)
    (ts : option Q) k :
  k <> key ->
  (cap_reached (_max_size self) (_cache self) = true ->
   option_map fst (hd_error (_cache self)) <> Some k) ->
  OrderedDict.getitem k (_cache (snd (add now key val ts self))) =
    OrderedDict.getitem k (_cache self)
  /\ others key (_cache (snd (add now key val ts self))) =
     others key (after_eviction self).
Proof.
  intros Hk Hhead. rewrite add_eq. cbn [snd _cache set_cache].
  split; [ | apply others_written ].
  rewrite getitem_written_other by exact Hk.
  unfold after_eviction.
  destruct (cap_reached (_max_size self) (_cache self)); [ | reflexivity ].
  specialize (Hhead eq_refl).
  destruct (_cache self) as [ | [k0 i0] rest ]; [ reflexivity | ].
  simpl in *. destruct (py_eqb k k0) eqn:E; [ | reflexivity ].
  apply py_eqb_spec in E. subst k0. congruence.
Qed.

(** X3. Below the cap, [add] of a key that is in the map replaces its
    binding without changing [len()], and [add] of a new key makes the
    map one longer; in both cases the key ends up last. *)
Theorem add_below_cap self (now : Q) key (val : pyobj) (ts : option Q) :
  cap_reached (_max_size self) (_cache self) = false ->
  let self' := snd (add now key val ts self) in
  _cache self' =
    OrderedDict.remove key (_cache self) ++ [(key, Item val (stamp now ts))]
  /\ List.length (_cache self') =
     (if OrderedDict.contains key (_cache self)
      then List.length (_cache self)
      else S (List.length (_cache self))).
Proof.
  intros Hcap. cbv zeta. rewrite add_eq. cbn [snd _cache set_cache].
  unfold after_eviction. rewrite Hcap.
  split; [ reflexivity | apply length_written ].
Qed.

(** X4. A [get] that returns a value other than [None] found that value
    under the key, not expired; it moves the binding to the end of the
    map and changes nothing else: same length, same configuration, same
    bindings of the other keys in the same order. *)
Theorem get_hit_frame (ct : Q) key self self' (v : pyobj) :
  get ct key self = (Ok v, self') ->
  v <> PyNone ->
  exists item,
    OrderedDict.getitem key (_cache self) = Some item
    /\ value item = v
    /\ expired (_ttl self) ct item = false
    /\ _cache self' = OrderedDict.remove key (_cache self) ++ [(key, item)]
    /\ List.length (_cache self') = List.length (_cache self)
    /\ others key (_cache self') = others key (_cache self)
    /\ (forall k, k <> key ->
          OrderedDict.getitem k (_cache self') = OrderedDict.getitem k (_cache self))
    /\ _max_size self' = _max_size self
    /\ _ttl self' = _ttl self.
Proof.
  rewrite get_eq.
  destruct (OrderedDict.getitem key (_cache self)) as [item | ] eqn:E.
  - destruct (expired (_ttl self) ct item) eqn:Hexp; intros H Hv.
    + injection H as <- _. congruence.
    + injection H as <- <-. exists item. cbn [_cache set_cache].
      split; [ reflexivity | ]. split; [ reflexivity | ].
      split; [ exact Hexp | ]. split; [ reflexivity | ].
      split.
      { fold (written key item (_cache self)). rewrite length_written.
        rewrite contains_getitem, E. reflexivity. }
      split; [ apply (others_written key item) | ].
      split; [ | split; reflexivity ].
      intros k Hk. apply (getitem_written_other key item k). exact Hk.
  - intros H Hv. injection H as <- _. congruence.
Qed.

(** X5. A negative [max_size] never equals a length, so it bounds
    nothing: on every sequence of operations, from any contents, the
    engine returns what the engine without [max_size] returns and holds
    the same map. *)
Theorem negative_max_size_is_unbounded (m : Z) (T : option Q)
    (ops : list op) (c : OrderedDict.t _TimedLRUCacheItem) :
  (m < 0)%Z ->
  map fst (trace ops (Build (Some m) T c)) = map fst (trace ops (Build None T c))
  /\ map (fun rs => _cache (snd rs)) (trace ops (Build (Some m) T c)) =
     map (fun rs => _cache (snd rs)) (trace ops (Build None T c)).
Proof.
  intros Hm. apply trace_same_config; [ | reflexivity ].
  intros c'. simpl.
  destruct (Z.eqb_spec (Z.of_nat (List.length c')) m) as [ E | _ ]; [ lia | ].
  apply andb_false_r.
Qed.

(** X6. With a negative [ttl], a [get] at a time not before the
    entry's timestamp finds the entry stale: it returns [None] and
    removes the entry, whatever its age. *)
Theorem negative_ttl_expires_on_read (T ct : Q) key item self :
  _ttl self = Some T ->
  T < 0 ->
  OrderedDict.getitem key (_cache self) = Some item ->
  time_added item <= ct ->
  get ct key self =
  (Ok PyNone, set_cache (OrderedDict.remove key (_cache self)) self).
Proof.
  intros Httl HT Hget Hct. rewrite get_eq, Hget, Httl.
  assert (Hexp : expired (Some T) ct item = true).
  { unfold expired. apply andb_true_iff. split.
    - apply negb_true_iff. destruct (Qeq_bool T 0) eqn:E; [ | reflexivity ].
      apply Qeq_bool_iff in E. rewrite E in HT.
      exfalso. revert HT. apply Qlt_irrefl.
    - apply Qle_bool_iff.
      apply Qle_trans with 0; [ apply Qlt_le_weak; exact HT | ].
      unfold Qminus. rewrite <- Qle_minus_iff. exact Hct. }
  rewrite Hexp. reflexivity.
Qed.

(** X7. No operation of the engine raises [KeyError], in any state:
    [get] indexes, pops or moves only a key it has found in the map, and
    [add] pops the head only of a map that has one (the cap is reached
    only at a length other than zero). *)
Theorem engine_raises_no_KeyError (o : op) self key :
  fst (exec o self) <> Raise (KeyError key).
Proof.
  rewrite exec_eq. destruct o as [ ct k | now k val ts | | ]; simpl;
    try discriminate.
  rewrite get_eq.
  destruct (OrderedDict.getitem k (_cache self)) as [item | ];
    [ destruct (expired (_ttl self) ct item) | ]; simpl; discriminate.
Qed.

End EngineExtras.

(** * How long a key that was just used stays *)

Section RecentKey.
Import TimedLRUCache.

Implicit Types (self : t) (key k : pyobj) (item : _TimedLRUCacheItem)
  (c front back : OrderedDict.t _TimedLRUCacheItem).

Lemma recent_getitem k item j c :
  recent k item j c -> OrderedDict.getitem k c = Some item.
Proof.
  intros (front & back & -> & Hfront & _).
  rewrite getitem_app. rewrite contains_getitem in Hfront.
  destruct (OrderedDict.getitem k front); [ discriminate | ].
  simpl. rewrite py_eqb_refl. reflexivity.
Qed.

Lemma recent_weaken k item j j' c :
  (j <= j')%nat -> recent k item j c -> recent k item j' c.
Proof.
  intros Hle (front & back & Hc & Hfront & Hlen).
  exists front, back. repeat split; [ exact Hc | exact Hfront | lia ].
Qed.

Lemma remove_app_present key (d d' : OrderedDict.t _TimedLRUCacheItem) :
  OrderedDict.contains key d = true ->
  OrderedDict.remove key (d ++ d') = OrderedDict.remove key d ++ d'.
Proof.
  induction d as [ | [k0 v0] d IH ]; simpl; [ discriminate | ].
  destruct (py_eqb key k0); simpl; [ reflexivity | ].
  intros H. rewrite IH by exact H. reflexivity.
Qed.

Lemma length_remove_le key (d : OrderedDict.t _TimedLRUCacheItem) :
  (List.length (OrderedDict.remove key d) <= List.length d)%nat.
Proof. rewrite length_remove. destruct (OrderedDict.contains key d); lia. Qed.

Lemma recent_remove k item j c key :
  key <> k -> recent k item j c -> recent k item j (OrderedDict.remove key c).
Proof.
  intros Hne (front & back & -> & Hfront & Hlen).
  destruct (OrderedDict.contains key front) eqn:E.
  - exists (OrderedDict.remove key front), back.
    rewrite remove_app_present by exact E.
    repeat split; [ | exact Hlen ].
    rewrite contains_remove_other by congruence. exact Hfront.
  - exists front, (OrderedDict.remove key back).
    rewrite remove_app_absent by exact E. simpl.
    apply py_eqb_neq in Hne. rewrite Hne.
    repeat split; [ exact Hfront | ].
    pose proof (length_remove_le key back). lia.
Qed.

Lemma recent_snoc k item j c (x : pyobj * _TimedLRUCacheItem) :
  recent k item j c -> recent k item (S j) (c ++ [x]).
Proof.
  intros (front & back & -> & Hfront & Hlen).
  exists front, (back ++ [x]). rewrite <- app_assoc. simpl.
  repeat split; [ exact Hfront | ]. rewrite length_app. simpl. lia.
Qed.

Lemma recent_tl k item j c :
  (S j < List.length c)%nat -> recent k item j c -> recent k item j (tl c).
Proof.
  intros Hlong (front & back & -> & Hfront & Hlen).
  destruct front as [ | [k0 v0] front ].
  - simpl in Hlong. lia.
  - exists front, back. simpl in *. apply orb_false_iff in Hfront.
    repeat split; [ tauto | exact Hlen ].
Qed.

(** One operation on another key puts at most one more entry behind
    [k], and does not remove [k] while fewer than [max_size - 1]
    entries are behind it. *)
Lemma exec_recent k item j o self :
  avoids k o = true ->
  (forall C, _max_size self = Some C -> (Z.of_nat (S j) < C)%Z) ->
  recent k item j (_cache self) ->
  recent k item (S j) (_cache (snd (exec o self))).
Proof.
  intros Hav Hroom Hrec. rewrite exec_eq.
  destruct o as [ ct key | now key val ts | | ]; simpl in Hav |- *.
  - apply negb_true_iff, py_eqb_neq in Hav. rewrite get_eq.
    destruct (OrderedDict.getitem key (_cache self)) as [it | ].
    + destruct (expired (_ttl self) ct it); simpl.
      * apply recent_weaken with j; [ lia | ].
        apply recent_remove; assumption.
      * apply recent_snoc. apply recent_remove; assumption.
    + apply recent_weaken with j; [ lia | exact Hrec ].
  - apply negb_true_iff, py_eqb_neq in Hav.
    apply recent_snoc. apply recent_remove; [ exact Hav | ].
    unfold after_eviction, cap_reached.
    destruct (_max_size self) as [C | ] eqn:Hmax; [ | exact Hrec ].
    destruct (negb (C =? 0)%Z && (Z.of_nat (List.length (_cache self)) =? C)%Z)
      eqn:Hcap; [ | exact Hrec ].
    apply andb_true_iff in Hcap. destruct Hcap as [_ Hlen].
    apply Z.eqb_eq in Hlen. specialize (Hroom C eq_refl).
    apply recent_tl; [ lia | exact Hrec ].
  - apply recent_weaken with j; [ lia | exact Hrec ].
  - discriminate.
Qed.

Lemma run_recent k item (ops : list op) :
  forall j self,
    Forall (fun o => avoids k o = true) ops ->
    (forall C, _max_size self = Some C ->
               (Z.of_nat (j + List.length ops) < C)%Z) ->
    recent k item j (_cache self) ->
    recent k item (j + List.length ops) (_cache (run ops self)).
Proof.
  induction ops as [ | o ops IH ]; intros j self Hav Hroom Hrec.
  - simpl. rewrite Nat.add_0_r. exact Hrec.
  - rewrite run_cons. inversion Hav as [ | ? ? Ho Hops ]; subst.
    replace (j + List.length (o :: ops))%nat
      with (S j + List.length ops)%nat by (simpl; lia).
    apply IH.
    + exact Hops.
    + intros C HC. rewrite (proj1 (exec_config o self)) in HC.
      specialize (Hroom C HC). simpl in Hroom. lia.
    + apply exec_recent; [ exact Ho | | exact Hrec ].
      intros C HC. specialize (Hroom C HC). simpl in Hroom. lia.
Qed.

(** X8. A key just written by [add] outlives the next operations on
    other keys: after any sequence of [get], [add] and [len] calls that
    do not name the key, shorter than [max_size] (of any length when no
    [max_size] is set), the key is still bound to what was written. *)
Theorem written_key_survives self (now : Q) key (val : pyobj)
    (ts : option Q) (ops : list op) :
  OrderedDict.wf (_cache self) ->
  Forall (fun o => avoids key o = true) ops ->
  (forall C, _max_size self = Some C -> (Z.of_nat (List.length ops) < C)%Z) ->
  OrderedDict.getitem key
    (_cache (run ops (snd (add now key val ts self)))) =
  Some (Item val (stamp now ts)).
Proof.
  intros Hwf Hav Hroom.
  apply (recent_getitem key _ (0 + List.length ops)).
  apply run_recent; [ exact Hav | | ].
  - intros C HC. rewrite add_eq in HC. apply Hroom. exact HC.
  - rewrite add_eq. cbn [snd _cache set_cache]. unfold written.
    exists (OrderedDict.remove key (after_eviction self)), [].
    repeat split; [ | simpl; lia ].
    apply contains_remove_same. apply wf_after_eviction. exact Hwf.
Qed.

(** X9. The same holds for a key just read: after a [get] that returned
    a value other than [None], the key keeps its binding through any
    sequence of operations on other keys shorter than [max_size]. *)
Theorem read_key_survives (ct : Q) key self self' (v : pyobj)
    (ops : list op) :
  OrderedDict.wf (_cache self) ->
  get ct key self = (Ok v, self') ->
  v <> PyNone ->
  Forall (fun o => avoids key o = true) ops ->
  (forall C, _max_size self = Some C -> (Z.of_nat (List.length ops) < C)%Z) ->
  OrderedDict.getitem key (_cache (run ops self')) =
  OrderedDict.getitem key (_cache self).
Proof.
  intros Hwf Hget Hv Hav Hroom.
  rewrite get_eq in Hget.
  destruct (OrderedDict.getitem key (_cache self)) as [item | ] eqn:Hitem;
    [ | injection Hget as <- _; congruence ].
  destruct (expired (_ttl self) ct item);
    [ injection Hget as <- _; congruence | ].
  injection Hget as _ <-.
  apply (recent_getitem key _ (0 + List.length ops)).
  apply run_recent; [ exact Hav | exact Hroom | ].
  cbn [_cache set_cache]. unfold written.
  exists (OrderedDict.remove key (_cache self)), [].
  repeat split; [ | simpl; lia ].
  apply contains_remove_same. exact Hwf.
Qed.

End RecentKey.

(** * Further properties of the wrapper *)

Section WrapperExtras.
Import Wrapper.

Context {World : Type}.
Variable time : World -> Q.
Variable f : list pyobj -> kwargs_t -> World -> result (pyobj * option Q) * World.

Implicit Types (s : state (World := World)) (args : list pyobj)
  (kwargs : kwargs_t).

Lemma get_returns (ct : Q) (key : pyobj) (e : TimedLRUCache.t) :
  exists v, fst (TimedLRUCache.get ct key e) = Ok v.
Proof.
  rewrite get_eq.
  destruct (OrderedDict.getitem key (TimedLRUCache._cache e)) as [item | ];
    [ destruct (TimedLRUCache.expired (TimedLRUCache._ttl e) ct item) | ];
    simpl; eexists; reflexivity.
Qed.

Lemma add_length (now : Q) (key val : pyobj) (ts : option Q)
    (e : TimedLRUCache.t) :
  (List.length (TimedLRUCache._cache (snd (TimedLRUCache.add now key val ts e)))
   <= S (List.length (TimedLRUCache._cache e)))%nat.
Proof.
  rewrite add_eq. cbn [snd TimedLRUCache._cache TimedLRUCache.set_cache].
  rewrite length_written, length_after_eviction.
  destruct (OrderedDict.contains key (after_eviction e));
    destruct (TimedLRUCache.cap_reached _ _); lia.
Qed.

Lemma add_within_capacity (C : Z) (now : Q) (key val : pyobj)
    (ts : option Q) (e : TimedLRUCache.t) :
  (0 < C)%Z ->
  TimedLRUCache._max_size e = Some C ->
  (Z.of_nat (List.length (TimedLRUCache._cache e)) <= C)%Z ->
  (Z.of_nat (List.length
               (TimedLRUCache._cache (snd (TimedLRUCache.add now key val ts e))))
   <= C)%Z.
Proof.
  intros HC Hmax Hlen.
  pose proof (exec_within_capacity C (Add now key val ts) e HC Hmax Hlen) as H.
  rewrite exec_eq in H. rewrite add_eq. exact H.
Qed.

(** What one call does to the counters, the log, the configuration and
    the size of the map. *)
Lemma call_step args kwargs s :
  let s' := snd (__call__ time f args kwargs s) in
  ((_hits (self s') = (_hits (self s) + 1)%Z
    /\ _misses (self s') = _misses (self s)
    /\ invocations s' = invocations s
    /\ world s' = world s
    /\ (cache_size s' <= cache_size s)%nat)
   \/ (_hits (self s') = _hits (self s)
       /\ _misses (self s') = (_misses (self s) + 1)%Z
       /\ invocations s' = invocations s ++ [(args, kwargs)]
       /\ world s' = snd (f args kwargs (world s))
       /\ (cache_size s' <= S (cache_size s))%nat))
  /\ _max_size (self s') = _max_size (self s)
  /\ TimedLRUCache._max_size (_timed_lru_cache (self s')) = TimedLRUCache._max_size (_timed_lru_cache (self s))
  /\ TimedLRUCache._ttl (_timed_lru_cache (self s')) = TimedLRUCache._ttl (_timed_lru_cache (self s))
  /\ (forall C, (0 < C)%Z ->
        TimedLRUCache._max_size (_timed_lru_cache (self s)) = Some C ->
        (Z.of_nat (cache_size s) <= C)%Z -> (Z.of_nat (cache_size s') <= C)%Z).
Proof.
  cbv zeta. unfold cache_size.
  remember (call_args args kwargs) as key eqn:Hkey.
  pose proof (get_returns (time (world s)) key (_timed_lru_cache (self s)))
    as [res Hres].
  pose proof (get_length (time (world s)) key (_timed_lru_cache (self s)))
    as Hlen.
  pose proof (get_config (time (world s)) key (_timed_lru_cache (self s)))
    as [Hm Ht].
  destruct (TimedLRUCache.get (time (world s)) key (_timed_lru_cache (self s)))
    as [r c'] eqn:Hget.
  cbn [fst snd] in Hres, Hlen, Hm, Ht. subst r. rewrite Hkey in Hget.
  destruct (is_None res) eqn:Hnone.
  - assert (res = PyNone) by (destruct res; simpl in Hnone; congruence).
    subst res.
    destruct (f args kwargs (world s)) as [[[v ts] | ex] w'] eqn:Hf.
    + rewrite (call_miss time f args kwargs s c' v ts w' Hget Hf).
      rewrite <- Hkey.
      pose proof (add_length (time w') key v ts c') as Hadd.
      pose proof (fun C => add_within_capacity C (time w') key v ts c') as Hcap.
      rewrite add_eq in *.
      cbn [snd self world invocations _hits _misses _max_size _timed_lru_cache
             TimedLRUCache._max_size TimedLRUCache._ttl
             TimedLRUCache._cache TimedLRUCache.set_cache] in *.
      split; [ right; repeat split; try reflexivity; lia | ].
      split; [ reflexivity | ]. split; [ exact Hm | ]. split; [ exact Ht | ].
      intros C HC Hmax Hsize.
      apply Hcap; [ exact HC | congruence | lia ].
    + rewrite (call_miss_raise time f args kwargs s c' ex w' Hget Hf).
      cbn [snd self world invocations _hits _misses _max_size _timed_lru_cache].
      split; [ right; repeat split; try reflexivity; lia | ].
      split; [ reflexivity | ]. split; [ exact Hm | ]. split; [ exact Ht | ].
      intros C HC Hmax Hsize. lia.
  - rewrite (call_hit time f args kwargs s res c' Hget Hnone).
    cbn [snd self world invocations _hits _misses _max_size _timed_lru_cache].
    split; [ left; repeat split; try reflexivity; lia | ].
    split; [ reflexivity | ]. split; [ exact Hm | ]. split; [ exact Ht | ].
    intros C HC Hmax Hsize. lia.
Qed.

Lemma run_calls_cons (c : call) (cs : list call) s :
  run_calls time f (c :: cs) s = run_calls time f cs (snd (call_in time f c s)).
Proof. reflexivity. Qed.

(** The counters, the log and the size of the map along a sequence of
    calls, relative to the state it starts from. *)
Lemma run_calls_counts (cs : list call) :
  forall s,
    let s' := run_calls time f cs s in
    (_hits (self s') + _misses (self s') =
     _hits (self s) + _misses (self s) + Z.of_nat (List.length cs))%Z
    /\ (_misses (self s') - _misses (self s) =
        Z.of_nat (List.length (invocations s'))
        - Z.of_nat (List.length (invocations s)))%Z
    /\ (_hits (self s) <= _hits (self s'))%Z
    /\ (Z.of_nat (cache_size s') - Z.of_nat (cache_size s) <=
        _misses (self s') - _misses (self s))%Z
    /\ _max_size (self s') = _max_size (self s)
    /\ TimedLRUCache._max_size (_timed_lru_cache (self s')) =
       TimedLRUCache._max_size (_timed_lru_cache (self s))
    /\ (forall C, (0 < C)%Z ->
          TimedLRUCache._max_size (_timed_lru_cache (self s)) = Some C ->
          (Z.of_nat (cache_size s) <= C)%Z -> (Z.of_nat (cache_size s') <= C)%Z).
Proof.
  induction cs as [ | c cs IH ]; intros s; cbv zeta.
  - simpl. repeat split; try lia.
  - rewrite run_calls_cons.
    specialize (IH (snd (call_in time f c s))). cbv zeta in IH.
    destruct IH as (Hsum & Hmiss & Hhits & Hsize & Hmax & Hemax & Hcap).
    pose proof (call_step (call_pos c) (call_named c)
                  (State (self s) (call_env c (world s)) (invocations s)))
      as Hstep.
    cbv zeta in Hstep. fold (call_in time f c s) in Hstep.
    unfold cache_size in *.
    cbn [self world invocations] in Hstep.
    destruct Hstep as (Hcase & Hmax1 & Hemax1 & _ & Hcap1).
    assert (Hlog : forall (l : list (list pyobj * kwargs_t)) x,
               Z.of_nat (List.length (l ++ [x])) = (Z.of_nat (List.length l) + 1)%Z).
    { intros l x. rewrite length_app. simpl. lia. }
    split; [ | split; [ | split; [ | split; [ | split; [ | split ] ] ] ] ].
    + simpl List.length.
      destruct Hcase as [(Hh & Hm & _) | (Hh & Hm & _)]; lia.
    + destruct Hcase as [(Hh & Hm & Hi & _) | (Hh & Hm & Hi & _)];
        rewrite Hi in Hmiss; try rewrite Hlog in Hmiss; lia.
    + destruct Hcase as [(Hh & _) | (Hh & _)]; lia.
    + destruct Hcase as [(_ & Hm & _ & _ & Hs) | (_ & Hm & _ & _ & Hs)]; lia.
    + congruence.
    + congruence.
    + intros C HC HmaxC HsizeC.
      apply Hcap; [ exact HC | congruence | ].
      apply Hcap1; assumption.
Qed.

(** X10. On a new wrapper, after any sequence of calls (with any
    arguments, in any worlds, returning or raising): [hits + misses] is
    the number of calls made, [misses] is the number of times the
    wrapped function has been called, the map holds at most [misses]
    entries and at most [max_size] when that is positive, and
    [cache_info()] reports these numbers with the configured
    [max_size]. *)
Theorem counters_count_calls (cs : list call) (max_size : option Z)
    (ttl : option Q) (w : World) :
  let s := run_calls time f cs (State (__init__ max_size ttl) w []) in
  (_hits (self s) + _misses (self s) = Z.of_nat (List.length cs))%Z
  /\ _misses (self s) = Z.of_nat (List.length (invocations s))
  /\ (0 <= _hits (self s))%Z
  /\ (Z.of_nat (cache_size s) <= _misses (self s))%Z
  /\ (forall C, (0 < C)%Z -> max_size = Some C -> (Z.of_nat (cache_size s) <= C)%Z)
  /\ cache_info s =
     (Ok (Info (_hits (self s)) (_misses (self s)) (Z.of_nat (cache_size s))
            max_size), s).
Proof.
  cbv zeta.
  pose proof (run_calls_counts cs (State (__init__ max_size ttl) w [])) as H.
  cbv zeta in H. unfold cache_size in *.
  cbn [self invocations _hits _misses _max_size _timed_lru_cache __init__
         TimedLRUCache.__init__ TimedLRUCache._cache TimedLRUCache._max_size
         List.length] in H.
  destruct H as (Hsum & Hmiss & Hhits & Hsize & Hmax & Hemax & Hcap).
  split; [ lia | ]. split; [ lia | ]. split; [ lia | ]. split; [ lia | ].
  split.
  - intros C HC ->. apply (Hcap C HC eq_refl). simpl. lia.
  - destruct (run_calls time f cs (State (__init__ max_size ttl) w []))
      as [[e h m ms] w' log].
    cbn [self _max_size] in Hmax. subst ms. reflexivity.
Qed.

(** X11. When the map holds, for the key of the call, a value other
    than [None] that has not expired, the call returns that value: the
    wrapped function is not called, the world is as it was, [hits] is
    one more and [misses] and the size of the map are unchanged. *)
Theorem cached_call_skips_function args kwargs s (item : _TimedLRUCacheItem) :
  OrderedDict.getitem (call_args args kwargs)
    (TimedLRUCache._cache (_timed_lru_cache (self s))) = Some item ->
  value item <> PyNone ->
  TimedLRUCache.expired (TimedLRUCache._ttl (_timed_lru_cache (self s)))
    (time (world s)) item = false ->
  exists s',
    __call__ time f args kwargs s = (Ok (value item), s')
    /\ invocations s' = invocations s
    /\ world s' = world s
    /\ _hits (self s') = (_hits (self s) + 1)%Z
    /\ _misses (self s') = _misses (self s)
    /\ cache_size s' = cache_size s.
Proof.
  intros Hitem Hval Hexp.
  assert (Hget : TimedLRUCache.get (time (world s)) (call_args args kwargs)
                   (_timed_lru_cache (self s)) =
                 (Ok (value item),
                  TimedLRUCache.set_cache
                    (written (call_args args kwargs) item
                       (TimedLRUCache._cache (_timed_lru_cache (self s))))
                    (_timed_lru_cache (self s)))).
  { rewrite get_eq, Hitem, Hexp. reflexivity. }
  eexists. split.
  - apply (call_hit time f args kwargs s _ _ Hget).
    apply not_None_is_None. exact Hval.
  - unfold cache_size.
    cbn [self world invocations _hits _misses _timed_lru_cache
           TimedLRUCache._cache TimedLRUCache.set_cache].
    repeat split.
    rewrite length_written, contains_getitem, Hitem. reflexivity.
Qed.

(** The first call on a new wrapper, when the function returns. *)
Lemma first_call args kwargs (max_size : option Z) (ttl : option Q)
    (w0 w1 : World) (v : pyobj) (ts : option Q) :
  f args kwargs w0 = (Ok (v, ts), w1) ->
  __call__ time f args kwargs (State (__init__ max_size ttl) w0 []) =
  (Ok v,
   State (Build (TimedLRUCache.Build max_size ttl
                   [(call_args args kwargs, Item v (stamp (time w1) ts))])
            0 1 max_size)
     w1 [(args, kwargs)]).
Proof.
  intros Hf.
  erewrite call_miss; [ | reflexivity | exact Hf ].
  change (_timed_lru_cache (self (State (__init__ max_size ttl) w0 [])))
    with (TimedLRUCache.__init__ max_size ttl).
  rewrite add_eq. unfold after_eviction, TimedLRUCache.__init__.
  cbn [TimedLRUCache._max_size TimedLRUCache._cache].
  destruct (TimedLRUCache.cap_reached max_size []); reflexivity.
Qed.

(** A call whose key is not the only key in the map is a miss. *)
Lemma call_other_key args kwargs (e : TimedLRUCache.t) (h m : Z)
    (ms : option Z) (w : World) (log : list (list pyobj * kwargs_t))
    (key : pyobj) (item : _TimedLRUCacheItem) :
  TimedLRUCache._cache e = [(key, item)] ->
  call_args args kwargs <> key ->
  exists r s',
    __call__ time f args kwargs (State (Build e h m ms) w log) = (r, s')
    /\ _hits (self s') = h
    /\ _misses (self s') = (m + 1)%Z
    /\ invocations s' = log ++ [(args, kwargs)].
Proof.
  intros Hc Hne.
  assert (Hget : TimedLRUCache.get (time w) (call_args args kwargs) e =
                 (Ok PyNone, e)).
  { rewrite get_eq, Hc. cbn [OrderedDict.getitem].
    apply py_eqb_neq in Hne. rewrite Hne. reflexivity. }
  destruct (f args kwargs w) as [[[v ts] | ex] w'] eqn:Hf.
  - eexists. eexists. split.
    + apply (call_miss time f args kwargs (State (Build e h m ms) w log)
               e v ts w' Hget Hf).
    + repeat split.
  - eexists. eexists. split.
    + apply (call_miss_raise time f args kwargs (State (Build e h m ms) w log)
               e ex w' Hget Hf).
    + repeat split.
Qed.

(** X12. A positional argument that is the pair [(name, value)] and
    the named argument [name=value] give the same key.  So after a call
    with the named argument has cached a result, a call that passes the
    pair in last position instead is served that result: the wrapped
    function is not called with the new arguments. *)
Theorem positional_pair_aliases_named args kwargs (n : string) (v : pyobj)
    (max_size : option Z) (ttl : option Q) (w0 w1 w2 : World)
    (r : pyobj) (ts : option Q) :
  f args ((n, v) :: kwargs) w0 = (Ok (r, ts), w1) ->
  r <> PyNone ->
  TimedLRUCache.expired ttl (time w2) (Item r (stamp (time w1) ts)) = false ->
  call_args (args ++ [PyTuple [PyStr n; v]]) kwargs =
    call_args args ((n, v) :: kwargs)
  /\ exists s1 s2,
       __call__ time f args ((n, v) :: kwargs)
         (State (__init__ max_size ttl) w0 []) = (Ok r, s1)
       /\ __call__ time f (args ++ [PyTuple [PyStr n; v]]) kwargs
            (State (self s1) w2 (invocations s1)) = (Ok r, s2)
       /\ invocations s2 = [(args, (n, v) :: kwargs)]
       /\ world s2 = w2.
Proof.
  intros Hf Hr Hexp.
  assert (Hkey : call_args (args ++ [PyTuple [PyStr n; v]]) kwargs =
                 call_args args ((n, v) :: kwargs)).
  { unfold call_args. simpl. rewrite <- app_assoc. reflexivity. }
  split; [ exact Hkey | ].
  eexists. eexists. split; [ apply first_call; exact Hf | ].
  cbn [self invocations].
  set (item := Item r (stamp (time w1) ts)) in *.
  erewrite call_hit; [ | | apply not_None_is_None; exact Hr ].
  - cbn [self world invocations]. repeat split.
  - cbn [self world _timed_lru_cache]. rewrite Hkey.
    rewrite get_eq.
    cbn [TimedLRUCache._cache TimedLRUCache._ttl OrderedDict.getitem].
    rewrite py_eqb_refl. fold item. rewrite Hexp. reflexivity.
Qed.

(** X13. Named arguments given in another order make another key: on
    a new wrapper, after a call with [n1=v1, n2=v2] has cached its
    result, the call with [n2=v2, n1=v1] is a miss and calls the wrapped
    function again. *)
Theorem named_order_matters args kwargs (n1 n2 : string) (v1 v2 : pyobj)
    (max_size : option Z) (ttl : option Q) (w0 w1 w2 : World)
    (r : pyobj) (ts : option Q) :
  n1 <> n2 ->
  f args ((n1, v1) :: (n2, v2) :: kwargs) w0 = (Ok (r, ts), w1) ->
  call_args args ((n2, v2) :: (n1, v1) :: kwargs) <>
    call_args args ((n1, v1) :: (n2, v2) :: kwargs)
  /\ exists s1 res s2,
       __call__ time f args ((n1, v1) :: (n2, v2) :: kwargs)
         (State (__init__ max_size ttl) w0 []) = (Ok r, s1)
       /\ __call__ time f args ((n2, v2) :: (n1, v1) :: kwargs)
            (State (self s1) w2 (invocations s1)) = (res, s2)
       /\ invocations s2 = [(args, (n1, v1) :: (n2, v2) :: kwargs);
                            (args, (n2, v2) :: (n1, v1) :: kwargs)]
       /\ _hits (self s2) = 0%Z
       /\ _misses (self s2) = 2%Z.
Proof.
  intros Hn Hf.
  assert (Hkey : call_args args ((n2, v2) :: (n1, v1) :: kwargs) <>
                 call_args args ((n1, v1) :: (n2, v2) :: kwargs)).
  { unfold call_args. simpl. intros H. injection H as H.
    apply app_inv_head in H. injection H as H _. congruence. }
  split; [ exact Hkey | ].
  eexists.
  destruct (call_other_key args ((n2, v2) :: (n1, v1) :: kwargs)
              (TimedLRUCache.Build max_size ttl
                 [(call_args args ((n1, v1) :: (n2, v2) :: kwargs),
                   Item r (stamp (time w1) ts))])
              0 1 max_size w2 [(args, (n1, v1) :: (n2, v2) :: kwargs)]
              _ _ eq_refl Hkey)
    as (res & s2 & Hcall & Hh & Hm & Hlog).
  exists res, s2.
  split; [ apply first_call; exact Hf | ].
  cbn [self invocations]. split; [ exact Hcall | ].
  split; [ exact Hlog | ]. split; [ exact Hh | exact Hm ].
Qed.

(** X14. After the wrapper's [clear], every call is a miss: whatever
    was cached before, the wrapped function is called, its result or
    its exception is what the call gives back, and the counters restart
    at one miss and no hit. *)
Theorem call_after_clear_is_a_miss args kwargs s (w : World) :
  let s0 := snd (clear s) in
  exists s',
    __call__ time f args kwargs (State (self s0) w (invocations s0)) =
      (match fst (f args kwargs w) with
       | Ok vt => Ok (fst vt)
       | Raise ex => Raise ex
       end, s')
    /\ invocations s' = invocations s ++ [(args, kwargs)]
    /\ world s' = snd (f args kwargs w)
    /\ _misses (self s') = 1%Z
    /\ _hits (self s') = 0%Z.
Proof.
  cbv zeta.
  set (e0 := TimedLRUCache.Build
               (TimedLRUCache._max_size (_timed_lru_cache (self s)))
               (TimedLRUCache._ttl (_timed_lru_cache (self s))) []).
  change (snd (clear s))
    with (State (Build e0 0 0 (_max_size (self s))) (world s) (invocations s)).
  cbn [self invocations].
  assert (Hget : TimedLRUCache.get (time w) (call_args args kwargs) e0 =
                 (Ok PyNone, e0)) by reflexivity.
  destruct (f args kwargs w) as [[[v ts] | ex] w'] eqn:Hf.
  - eexists. split.
    + apply (call_miss time f args kwargs
               (State (Build e0 0 0 (_max_size (self s))) w (invocations s))
               e0 v ts w' Hget Hf).
    + repeat split.
  - eexists. split.
    + apply (call_miss_raise time f args kwargs
               (State (Build e0 0 0 (_max_size (self s))) w (invocations s))
               e0 ex w' Hget Hf).
    + repeat split.
Qed.

(** X15. A cached result is not served once it has expired: on a new
    wrapper with [ttl = T > 0], if the second call comes when the age of
    the first result, counted from the timestamp the function gave or
    else from the clock when it returned, is at least [T], the function
    is called again and the new result replaces the old entry. *)
Theorem expired_result_is_recomputed args kwargs (max_size : option Z)
    (T : Q) (w0 w1 w2 w3 : World) (v v2 : pyobj) (ts ts2 : option Q) :
  (0 < T)%Q ->
  f args kwargs w0 = (Ok (v, ts), w1) ->
  (T <= time w2 - stamp (time w1) ts)%Q ->
  f args kwargs w2 = (Ok (v2, ts2), w3) ->
  exists s1 s2,
    __call__ time f args kwargs (State (__init__ max_size (Some T)) w0 []) =
      (Ok v, s1)
    /\ __call__ time f args kwargs (State (self s1) w2 (invocations s1)) =
       (Ok v2, s2)
    /\ invocations s2 = [(args, kwargs); (args, kwargs)]
    /\ _hits (self s2) = 0%Z
    /\ _misses (self s2) = 2%Z
    /\ TimedLRUCache._cache (_timed_lru_cache (self s2)) =
       [(call_args args kwargs, Item v2 (stamp (time w3) ts2))].
Proof.
  intros HT Hf1 Hage Hf2.
  assert (Hget : TimedLRUCache.get (time w2) (call_args args kwargs)
                   (TimedLRUCache.Build max_size (Some T)
                      [(call_args args kwargs, Item v (stamp (time w1) ts))]) =
                 (Ok PyNone, TimedLRUCache.Build max_size (Some T) [])).
  { rewrite get_eq.
    cbn [TimedLRUCache._cache TimedLRUCache._ttl OrderedDict.getitem].
    rewrite py_eqb_refl, positive_ttl_expired by exact HT.
    apply Qle_bool_iff in Hage. cbn [time_added].
    rewrite Hage. cbn [OrderedDict.remove]. rewrite py_eqb_refl. reflexivity. }
  assert (Hcap : TimedLRUCache.cap_reached max_size [] = false).
  { destruct max_size as [[ | p | p ] | ]; reflexivity. }
  exists (State (Build (TimedLRUCache.Build max_size (Some T)
                          [(call_args args kwargs, Item v (stamp (time w1) ts))])
                   0 1 max_size) w1 [(args, kwargs)]).
  exists (State (Build (TimedLRUCache.Build max_size (Some T)
                          [(call_args args kwargs, Item v2 (stamp (time w3) ts2))])
                   0 2 max_size) w3 [(args, kwargs); (args, kwargs)]).
  split; [ apply first_call; exact Hf1 | ].
  split; [ | repeat split ].
  cbn [self invocations].
  rewrite (call_miss time f args kwargs
             (State (Build (TimedLRUCache.Build max_size (Some T)
                              [(call_args args kwargs,
                                 Item v (stamp (time w1) ts))])
                       0 1 max_size) w2 [(args, kwargs)])
             _ v2 ts2 w3 Hget Hf2).
  rewrite add_eq. unfold after_eviction.
  cbn [snd self invocations _hits _misses _max_size _timed_lru_cache
         TimedLRUCache._max_size TimedLRUCache._cache TimedLRUCache.set_cache].
  rewrite Hcap. reflexivity.
Qed.

(** X16. [timed_lru_cache(max_size, ttl)] applied to a function gives
    a wrapper with an empty cache and both counters at zero, reporting
    the given [max_size]; its first call calls the function once, with
    the arguments of the call, and gives back the function's value or
    the exception it raised. *)
Theorem decorated_function_starts_empty (fn : Decorator.fn_t)
    (max_size : option Z) (ttl : option Q) args kwargs (w : World) :
  let obj := Decorator.timed_lru_cache max_size ttl fn in
  cache_info (State (Decorator.fields obj) w []) =
    (Ok (Info 0 0 0 max_size), State (Decorator.fields obj) w [])
  /\ TimedLRUCache._ttl (_timed_lru_cache (Decorator.fields obj)) = ttl
  /\ exists s',
       Decorator.call time obj args kwargs w [] =
         (match fst (fn args kwargs w) with
          | Ok vt => Ok (fst vt)
          | Raise ex => Raise ex
          end, s')
       /\ invocations s' = [(args, kwargs)]
       /\ world s' = snd (fn args kwargs w)
       /\ _misses (self s') = 1%Z
       /\ _hits (self s') = 0%Z.
Proof.
  cbv zeta. split; [ reflexivity | ]. split; [ reflexivity | ].
  unfold Decorator.call, Decorator.timed_lru_cache.
  cbn [Decorator._wrapped Decorator.fields].
  assert (Hget : TimedLRUCache.get (time w) (call_args args kwargs)
                   (TimedLRUCache.__init__ max_size ttl) =
                 (Ok PyNone, TimedLRUCache.__init__ max_size ttl))
    by reflexivity.
  destruct (fn args kwargs w) as [[[v ts] | ex] w'] eqn:Hf.
  - eexists. split.
    + apply (call_miss time fn args kwargs
               (State (__init__ max_size ttl) w [])
               (TimedLRUCache.__init__ max_size ttl) v ts w' Hget Hf).
    + repeat split.
  - eexists. split.
    + apply (call_miss_raise time fn args kwargs
               (State (__init__ max_size ttl) w [])
               (TimedLRUCache.__init__ max_size ttl) ex w' Hget Hf).
    + repeat split.
Qed.

End WrapperExtras.

(** * What a lookup can return *)

Section LastWrite.
Import TimedLRUCache.

Implicit Types (self : t) (key k : pyobj) (item : _TimedLRUCacheItem).

Lemma getitem_tl_wf k item (c : OrderedDict.t _TimedLRUCacheItem) :
  OrderedDict.wf c ->
  OrderedDict.getitem k (tl c) = Some item ->
  OrderedDict.getitem k c = Some item.
Proof.
  destruct c as [ | [k0 i0] rest ]; simpl; [ auto | ].
  intros Hwf Hget. destruct (py_eqb k k0) eqn:E; [ | exact Hget ].
  apply py_eqb_spec in E. subst k0.
  unfold OrderedDict.wf in Hwf. simpl in Hwf. inversion Hwf as [ | ? ? Hnotin _ ].
  exfalso. apply Hnotin. apply contains_In.
  rewrite contains_getitem, Hget. reflexivity.
Qed.

Lemma getitem_remove_same_wf k (c : OrderedDict.t _TimedLRUCacheItem) :
  OrderedDict.wf c -> OrderedDict.getitem k (OrderedDict.remove k c) = None.
Proof.
  intros Hwf. pose proof (contains_remove_same k c Hwf) as H.
  rewrite contains_getitem in H.
  destruct (OrderedDict.getitem k (OrderedDict.remove k c));
    [ discriminate | reflexivity ].
Qed.

(** One operation keeps every binding equal to the last write of its
    key. *)
Lemma exec_last_write k (o : op) self (acc : option _TimedLRUCacheItem) :
  OrderedDict.wf (_cache self) ->
  (forall item, OrderedDict.getitem k (_cache self) = Some item ->
                acc = Some item) ->
  forall item,
    OrderedDict.getitem k (_cache (snd (exec o self))) = Some item ->
    last_write k [o] acc = Some item.
Proof.
  intros Hwf Hacc item. rewrite exec_eq.
  destruct o as [ ct key | now key val ts | | ]; cbn [snd last_write].
  - rewrite get_eq.
    destruct (OrderedDict.getitem key (_cache self)) as [it | ] eqn:Hit;
      [ | apply Hacc ].
    destruct (py_eqb key k) eqn:E.
    + apply py_eqb_spec in E. subst key.
      destruct (expired (_ttl self) ct it); cbn [snd _cache set_cache].
      * rewrite getitem_remove_same_wf by exact Hwf. discriminate.
      * rewrite getitem_written_same by exact Hwf.
        intros H. injection H as <-. apply Hacc. exact Hit.
    + apply py_eqb_neq in E.
      destruct (expired (_ttl self) ct it); cbn [snd _cache set_cache].
      * rewrite getitem_remove_other by congruence. apply Hacc.
      * rewrite getitem_written_other by congruence. apply Hacc.
  - cbn [_cache set_cache].
    pose proof (wf_after_eviction self Hwf) as Hwf0.
    destruct (py_eqb key k) eqn:E.
    + apply py_eqb_spec in E. subst key.
      rewrite getitem_written_same by exact Hwf0. auto.
    + apply py_eqb_neq in E.
      rewrite getitem_written_other by congruence.
      unfold after_eviction.
      destruct (cap_reached (_max_size self) (_cache self)); [ | apply Hacc ].
      intros H. apply Hacc. apply getitem_tl_wf; assumption.
  - apply Hacc.
  - cbn [_cache set_cache OrderedDict.getitem]. discriminate.
Qed.

Lemma run_last_write k (ops : list op) :
  forall self (acc : option _TimedLRUCacheItem),
    OrderedDict.wf (_cache self) ->
    (forall item, OrderedDict.getitem k (_cache self) = Some item ->
                  acc = Some item) ->
    forall item,
      OrderedDict.getitem k (_cache (run ops self)) = Some item ->
      last_write k ops acc = Some item.
Proof.
  induction ops as [ | o ops IH ]; intros self acc Hwf Hacc item.
  - apply Hacc.
  - rewrite run_cons. cbn [last_write].
    apply IH.
    + apply (run_wf [o] self Hwf).
    + intros it Hit. apply (exec_last_write k o self acc Hwf Hacc it Hit).
Qed.

Lemma run_config (ops : list op) self :
  _max_size (run ops self) = _max_size self /\ _ttl (run ops self) = _ttl self.
Proof.
  revert self. induction ops as [ | o ops IH ]; intros self.
  - split; reflexivity.
  - rewrite run_cons. destruct (IH (snd (exec o self))) as [-> ->].
    apply exec_config.
Qed.

(** X17. Whatever sequence of operations a new engine has gone
    through, a [get] that returns a value other than [None] returns the
    value of the last [add] made under that key, no [clear] has been
    called since that [add], and by its timestamp the entry has not
    expired. *)
Theorem get_returns_last_write (m : option Z) (T : option Q)
    (ops : list op) (ct : Q) k (v : pyobj) :
  fst (get ct k (run ops (__init__ m T))) = Ok v ->
  v <> PyNone ->
  exists item,
    last_write k ops None = Some item
    /\ value item = v
    /\ expired T ct item = false.
Proof.
  intros Hget Hv. rewrite get_eq in Hget.
  destruct (OrderedDict.getitem k (_cache (run ops (__init__ m T))))
    as [item | ] eqn:Hitem; [ | simpl in Hget; congruence ].
  rewrite (proj2 (run_config ops (__init__ m T))) in Hget.
  cbn [_ttl __init__] in Hget.
  destruct (expired T ct item) eqn:Hexp; simpl in Hget; [ congruence | ].
  exists item. split; [ | split; [ congruence | exact Hexp ] ].
  apply (run_last_write k ops (__init__ m T) None); [ constructor | | exact Hitem ].
  simpl. discriminate.
Qed.

End LastWrite.

(** * Instances of the further properties *)

Section ExtraWitnesses.
Import Examples.

(** X1 on an engine without TTL: written at time [0], read at [9]. *)
Lemma add_then_get_witness :
  TimedLRUCache.get 9 a
    (snd (TimedLRUCache.add 0 a (PyInt 1) None
            (TimedLRUCache.__init__ (Some 2%Z) None))) =
  (Ok (PyInt 1),
   snd (TimedLRUCache.add 0 a (PyInt 1) None
          (TimedLRUCache.__init__ (Some 2%Z) None))).
Proof.
  apply (add_then_get (TimedLRUCache.__init__ (Some 2%Z) None) 0 a (PyInt 1)
           None 9).
  - constructor.
  - reflexivity.
Defined.

(** X2 on the full map [a, b] with [max_size = 2]: adding [c] keeps the
    binding of [b]. *)
Lemma add_keeps_other_keys_witness :
  OrderedDict.getitem b
    (TimedLRUCache._cache
       (snd (TimedLRUCache.add 0 c (PyInt 3) None
               (TimedLRUCache.Build (Some 2%Z) None
                  [(a, Item (PyInt 1) 0); (b, Item (PyInt 2) 0)])))) =
  Some (Item (PyInt 2) 0).
Proof.
  refine (proj1 (add_keeps_other_keys
                   (TimedLRUCache.Build (Some 2%Z) None
                      [(a, Item (PyInt 1) 0); (b, Item (PyInt 2) 0)])
                   0 c (PyInt 3) None b _ _)).
  - discriminate.
  - intros _. discriminate.
Defined.

(** X3 on the map [a, b] without [max_size]: writing [a] again keeps
    the length at two. *)
Lemma add_below_cap_witness :
  List.length
    (TimedLRUCache._cache
       (snd (TimedLRUCache.add 0 a (PyInt 5) None
               (TimedLRUCache.Build None None
                  [(a, Item (PyInt 1) 0); (b, Item (PyInt 2) 0)])))) = 2%nat.
Proof.
  refine (proj2 (add_below_cap
                   (TimedLRUCache.Build None None
                      [(a, Item (PyInt 1) 0); (b, Item (PyInt 2) 0)])
                   0 a (PyInt 5) None _)).
  reflexivity.
Defined.

(** X4 on the map [a, b] without TTL: reading [a]. *)
Lemma get_hit_frame_witness :
  exists item,
    OrderedDict.getitem a [(a, Item (PyInt 1) 0); (b, Item (PyInt 2) 0)] =
      Some item
    /\ value item = PyInt 1.
Proof.
  destruct (get_hit_frame 0 a
              (TimedLRUCache.Build None None
                 [(a, Item (PyInt 1) 0); (b, Item (PyInt 2) 0)])
              (TimedLRUCache.Build None None
                 [(b, Item (PyInt 2) 0); (a, Item (PyInt 1) 0)])
              (PyInt 1) eq_refl)
    as (item & Hitem & Hval & _).
  - discriminate.
  - exists item. split; [ exact Hitem | exact Hval ].
Defined.

(** X5 with [max_size = -1]: two additions. *)
Lemma negative_max_size_is_unbounded_witness :
  map fst (trace [Add 0 a (PyInt 1) None; Add 0 b (PyInt 2) None]
             (TimedLRUCache.Build (Some (-1)%Z) None [])) =
  map fst (trace [Add 0 a (PyInt 1) None; Add 0 b (PyInt 2) None]
             (TimedLRUCache.Build None None [])).
Proof.
  refine (proj1 (negative_max_size_is_unbounded (-1)%Z None
                   [Add 0 a (PyInt 1) None; Add 0 b (PyInt 2) None] [] _)).
  reflexivity.
Defined.

(** X6 with [ttl = -1]: an entry written at time [0] and read at [0]. *)
Lemma negative_ttl_expires_on_read_witness :
  TimedLRUCache.get 0 a
    (TimedLRUCache.Build None (Some (-1)%Q) [(a, Item (PyInt 1) 0)]) =
  (Ok PyNone, TimedLRUCache.Build None (Some (-1)%Q) []).
Proof.
  apply (negative_ttl_expires_on_read (-1)%Q 0%Q a (Item (PyInt 1) 0)
           (TimedLRUCache.Build None (Some (-1)%Q) [(a, Item (PyInt 1) 0)])).
  - reflexivity.
  - reflexivity.
  - reflexivity.
  - discriminate.
Defined.

(** X8 with [max_size = 2]: [a] written, then [b]. *)
Lemma written_key_survives_witness :
  OrderedDict.getitem a
    (TimedLRUCache._cache
       (run [Add 0 b (PyInt 2) None]
          (snd (TimedLRUCache.add 0 a (PyInt 1) None
                  (TimedLRUCache.__init__ (Some 2%Z) None))))) =
  Some (Item (PyInt 1) 0).
Proof.
  apply (written_key_survives (TimedLRUCache.__init__ (Some 2%Z) None) 0 a
           (PyInt 1) None [Add 0 b (PyInt 2) None]).
  - constructor.
  - repeat constructor.
  - intros C H. injection H as <-. reflexivity.
Defined.

(** X9 on the full map [a, b] with [max_size = 2]: [a] read, then [c]
    added. *)
Lemma read_key_survives_witness :
  OrderedDict.getitem a
    (TimedLRUCache._cache
       (run [Add 0 c (PyInt 3) None]
          (TimedLRUCache.Build (Some 2%Z) None
             [(b, Item (PyInt 2) 0); (a, Item (PyInt 1) 0)]))) =
  OrderedDict.getitem a [(a, Item (PyInt 1) 0); (b, Item (PyInt 2) 0)].
Proof.
  apply (read_key_survives 0 a
           (TimedLRUCache.Build (Some 2%Z) None
              [(a, Item (PyInt 1) 0); (b, Item (PyInt 2) 0)])
           (TimedLRUCache.Build (Some 2%Z) None
              [(b, Item (PyInt 2) 0); (a, Item (PyInt 1) 0)])
           (PyInt 1) [Add 0 c (PyInt 3) None]).
  - repeat constructor; simpl; intuition discriminate.
  - reflexivity.
  - discriminate.
  - repeat constructor.
  - intros C H. injection H as <-. reflexivity.
Defined.

(** X11: the state after a first call of [flaky], called again at time
    [1], when [flaky] itself would raise. *)
Lemma cached_call_skips_function_witness :
  exists s',
    Wrapper.__call__ seconds flaky [PyInt 1] [] (after_first_call 1) =
      (Ok (PyInt 7), s')
    /\ Wrapper.invocations s' = [([PyInt 1], [])]
    /\ Wrapper.world s' = 1%nat
    /\ Wrapper._hits (Wrapper.self s') = 1%Z
    /\ Wrapper._misses (Wrapper.self s') = 1%Z
    /\ cache_size s' = 1%nat.
Proof.
  apply (cached_call_skips_function seconds flaky [PyInt 1] []
           (after_first_call 1) (Item (PyInt 7) 0)).
  - reflexivity.
  - discriminate.
  - reflexivity.
Defined.

(** X12: [f(x=1)] and [f(("x", 1))]. *)
Lemma positional_pair_aliases_named_witness :
  Wrapper.call_args ([] ++ [PyTuple [PyStr "x"; PyInt 1]]) [] =
  Wrapper.call_args [] [("x"%string, PyInt 1)].
Proof.
  refine (proj1 (positional_pair_aliases_named seconds seven [] [] "x"%string
                   (PyInt 1) None None 0%nat 0%nat 1%nat (PyInt 7) None
                   eq_refl _ eq_refl)).
  discriminate.
Defined.

(** X13: [f(x=1, y=2)] and [f(y=2, x=1)]. *)
Lemma named_order_matters_witness :
  Wrapper.call_args [] [("y"%string, PyInt 2); ("x"%string, PyInt 1)] <>
  Wrapper.call_args [] [("x"%string, PyInt 1); ("y"%string, PyInt 2)].
Proof.
  refine (proj1 (named_order_matters seconds seven [] [] "x"%string "y"%string
                   (PyInt 1) (PyInt 2) None None 0%nat 0%nat 1%nat (PyInt 7)
                   None _ eq_refl)).
  discriminate.
Defined.

(** X15 with [ttl = 5]: calls at times [0] and [5]. *)
Lemma expired_result_is_recomputed_witness :
  exists s1 s2,
    Wrapper.__call__ seconds seven [PyInt 1] []
      (Wrapper.State (Wrapper.__init__ None (Some 5%Q)) 0%nat []) =
      (Ok (PyInt 7), s1)
    /\ Wrapper.__call__ seconds seven [PyInt 1] []
         (Wrapper.State (Wrapper.self s1) 5%nat (Wrapper.invocations s1)) =
       (Ok (PyInt 7), s2)
    /\ Wrapper.invocations s2 = [([PyInt 1], []); ([PyInt 1], [])]
    /\ Wrapper._hits (Wrapper.self s2) = 0%Z
    /\ Wrapper._misses (Wrapper.self s2) = 2%Z
    /\ TimedLRUCache._cache (Wrapper._timed_lru_cache (Wrapper.self s2)) =
       [(Wrapper.call_args [PyInt 1] [], Item (PyInt 7) (stamp (seconds 5) None))].
Proof.
  apply (expired_result_is_recomputed seconds seven [PyInt 1] [] None 5%Q
           0%nat 0%nat 5%nat 5%nat (PyInt 7) (PyInt 7) None None).
  - reflexivity.
  - reflexivity.
  - discriminate.
  - reflexivity.
Defined.

(** X17 with [max_size = 2]: [a] and [b] written, [a] read. *)
Lemma get_returns_last_write_witness :
  exists item,
    last_write a [Add 0 a (PyInt 1) None; Add 0 b (PyInt 2) None] None =
      Some item
    /\ value item = PyInt 1
    /\ TimedLRUCache.expired None 0 item = false.
Proof.
  apply (get_returns_last_write (Some 2%Z) None
           [Add 0 a (PyInt 1) None; Add 0 b (PyInt 2) None] 0 a (PyInt 1)).
  - reflexivity.
  - discriminate.
Defined.

End ExtraWitnesses.

(** * Expiry on binary64 timestamps *)

Section SnocFacts.
Context {V : Type}.
Implicit Types (d : OrderedDict.t V) (key : pyobj) (v : V).

Lemma getitem_remove_snoc key v d :
  OrderedDict.wf d ->
  OrderedDict.getitem key (OrderedDict.remove key d ++ [(key, v)]) = Some v.
Proof.
  intros Hwf. rewrite getitem_app.
  pose proof (contains_remove_same key d Hwf) as H.
  rewrite contains_getitem in H.
  destruct (OrderedDict.getitem key (OrderedDict.remove key d)); [ discriminate | ].
  simpl. rewrite py_eqb_refl. reflexivity.
Qed.

Lemma remove_remove_snoc key v d :
  OrderedDict.wf d ->
  OrderedDict.remove key (OrderedDict.remove key d ++ [(key, v)]) =
  OrderedDict.remove key d.
Proof.
  intros Hwf.
  rewrite remove_app_absent by (apply contains_remove_same; exact Hwf).
  simpl. rewrite py_eqb_refl. apply app_nil_r.
Qed.

Lemma wf_tail d : OrderedDict.wf d -> OrderedDict.wf (tl d).
Proof.
  destruct d as [ | kv d ]; simpl; [ auto | ].
  unfold OrderedDict.wf. simpl. intros H. inversion H. assumption.
Qed.

End SnocFacts.

Section FloatOrder.
Import SpecFloat.

(** Comparing the other way round gives the opposite answer. *)
Lemma SFcompare_swap (x y : spec_float) :
  SFcompare y x = option_map CompOpp (SFcompare x y).
Proof.
  destruct x as [ sx | sx | | sx mx ex ], y as [ sy | sy | | sy my ey ];
    simpl; try reflexivity;
    try (destruct sx; reflexivity); try (destruct sy; reflexivity);
    try (destruct sx, sy; reflexivity).
  destruct sx, sy; try reflexivity; simpl;
    rewrite (Z.compare_antisym ex ey);
    destruct (ex ?= ey)%Z; simpl; try reflexivity;
    rewrite (Pos.compare_cont_antisym mx my Eq); simpl;
    destruct (Pos.compare_cont Eq mx my); reflexivity.
Qed.

(** A number above zero is true in a condition. *)
Lemma positive_is_truthy (T : PrimFloat.float) :
  PrimFloat.ltb PrimFloat.zero T = true -> PrimFloat.eqb T PrimFloat.zero = false.
Proof.
  rewrite FloatAxioms.ltb_spec, FloatAxioms.eqb_spec.
  unfold SFltb, SFeqb. rewrite (SFcompare_swap (FloatOps.Prim2SF PrimFloat.zero)).
  destruct (SFcompare (FloatOps.Prim2SF PrimFloat.zero) (FloatOps.Prim2SF T))
    as [ [ | | ] | ]; simpl; congruence.
Qed.

(** [d < T] rules out [d >= T]. *)
Lemma below_is_not_reached (d T : PrimFloat.float) :
  PrimFloat.ltb d T = true -> PrimFloat.leb T d = false.
Proof.
  rewrite FloatAxioms.ltb_spec, FloatAxioms.leb_spec.
  unfold SFltb, SFleb. rewrite (SFcompare_swap (FloatOps.Prim2SF d)).
  destruct (SFcompare (FloatOps.Prim2SF d) (FloatOps.Prim2SF T))
    as [ [ | | ] | ]; simpl; congruence.
Qed.

End FloatOrder.

Section Binary64Facts.
Import Binary64.

Implicit Types (self : t) (key k : pyobj) (item : _TimedLRUCacheItem).

(** [get] on binary64 timestamps: what it returns and the state it
    leaves. *)
Lemma get64_eq (ct : PrimFloat.float) key self :
  get ct key self =
  match OrderedDict.getitem key (_cache self) with
  | None => (Ok PyNone, self)
  | Some item =>
      if expired (_ttl self) ct item
      then (Ok PyNone, set_cache (OrderedDict.remove key (_cache self)) self)
      else (Ok (value item),
            set_cache (OrderedDict.remove key (_cache self) ++ [(key, item)]) self)
  end.
Proof.
  unfold get, bind, gets, ret, cache_getitem, cache_pop, cache_move_to_end,
    OrderedDict.pop, OrderedDict.move_to_end.
  rewrite contains_getitem.
  destruct (OrderedDict.getitem key (_cache self)) as [item | ] eqn:E; simpl;
    [ | reflexivity ].
  rewrite E. simpl.
  destruct (expired (_ttl self) ct item); simpl; rewrite E; reflexivity.
Qed.

Lemma cap_reached64_nonempty m (c : OrderedDict.t _TimedLRUCacheItem) :
  cap_reached m c = true -> c <> [].
Proof.
  destruct m as [m | ]; simpl; [ | discriminate ].
  intros H Hc. subst c. apply andb_true_iff in H. destruct H as [H0 H1].
  apply Z.eqb_eq in H1. simpl in H1. subst m. discriminate.
Qed.

(** [add] on binary64 timestamps: the state it leaves. *)
Lemma add64_eq (now : PrimFloat.float) key (val : pyobj)
    (ts : option PrimFloat.float) self :
  add now key val ts self =
  (Ok tt,
   set_cache
     (OrderedDict.remove key (after_eviction self)
      ++ [(key, Item val (stamp now ts))]) self).
Proof.
  unfold after_eviction, add, bind, gets, ret, modify, cache_popitem_first,
    cache_setitem, cache_move_to_end, OrderedDict.move_to_end,
    OrderedDict.popitem_first, stamp.
  destruct (cap_reached (_max_size self) (_cache self)) eqn:Hcap.
  - apply cap_reached64_nonempty in Hcap.
    destruct (_cache self) as [ | kv c ]; [ congruence | ]. simpl.
    rewrite getitem_setitem, remove_setitem. reflexivity.
  - simpl. rewrite getitem_setitem, remove_setitem. reflexivity.
Qed.

Lemma wf_after_eviction64 self :
  OrderedDict.wf (_cache self) -> OrderedDict.wf (after_eviction self).
Proof.
  intros Hwf. unfold after_eviction.
  destruct (cap_reached (_max_size self) (_cache self));
    [ apply wf_tail | ]; exact Hwf.
Qed.

(** C2, as amended.  With [ttl = T > 0], for a key written by [add]
    with timestamp [t0] and read by the next operation, a [get] at time
    [t] goes by the difference [t - t0] as binary64 arithmetic gives it
    (rounded to nearest): when that difference is below [T], [get]
    returns the stored value and leaves the engine as it is; when it is
    at least [T], equality included, [get] returns [None], the key is
    no longer in the map and [len] is one less. *)
Theorem get_ttl_boundary_binary64 self (T : PrimFloat.float) k (v : pyobj)
    (now : PrimFloat.float) (ts : option PrimFloat.float)
    (ct : PrimFloat.float) :
  _ttl self = Some T ->
  PrimFloat.ltb PrimFloat.zero T = true ->
  OrderedDict.wf (_cache self) ->
  let t0 := stamp now ts in
  let inserted := snd (add now k v ts self) in
  (PrimFloat.ltb (PrimFloat.sub ct t0) T = true ->
   get ct k inserted = (Ok v, inserted))
  /\ (PrimFloat.leb T (PrimFloat.sub ct t0) = true ->
      exists self' n,
        get ct k inserted = (Ok PyNone, self')
        /\ OrderedDict.contains k (_cache self') = false
        /\ __len__ inserted = (Ok n, inserted)
        /\ __len__ self' = (Ok (n - 1)%Z, self')).
Proof.
  intros Httl HT Hwf. cbv zeta.
  rewrite add64_eq. cbn [snd].
  pose proof (wf_after_eviction64 self Hwf) as Hwf0.
  rewrite !get64_eq. cbn [_cache set_cache _ttl].
  rewrite getitem_remove_snoc by exact Hwf0.
  rewrite remove_remove_snoc by exact Hwf0.
  rewrite Httl. unfold expired. cbn [time_added value].
  rewrite (positive_is_truthy T HT). cbn [negb andb].
  split.
  - intros Hlt. rewrite (below_is_not_reached _ _ Hlt). reflexivity.
  - intros Hle. rewrite Hle.
    eexists.
    exists (Z.of_nat (List.length
                        (OrderedDict.remove k (after_eviction self)
                         ++ [(k, Item v (stamp now ts))]))).
    split; [ reflexivity | ]. cbn [_cache set_cache].
    split; [ apply contains_remove_same; exact Hwf0 | ].
    split; [ reflexivity | ].
    unfold __len__, gets. cbn [_cache set_cache].
    rewrite length_app. simpl. do 2 f_equal. lia.
Qed.

End Binary64Facts.

Section Binary64Runs.
Import Binary64.

(** C2 as stated, with the elapsed time taken exactly: with [ttl = 1.0],
    an entry written at time [2 ** -60] and read at time [1.0] has
    lived, exactly, less than [ttl]; yet the difference the code
    computes rounds to [1.0], so [get] returns [None] and removes the
    entry. *)
Lemma rounded_age_reaches_ttl :
  let T := Times.one_second in
  let t0 := Times.tiny in
  let ct := Times.one_second in
  let inserted :=
    snd (add t0 (PyStr "a") (PyInt 1) None (__init__ None (Some T))) in
  (exact ct - exact t0 < exact T)%Q
  /\ PrimFloat.sub ct t0 = T
  /\ _cache inserted = [(PyStr "a", Item (PyInt 1) t0)]
  /\ get ct (PyStr "a") inserted = (Ok PyNone, __init__ None (Some T)).
Proof.
  cbv zeta. split; [ | split; [ | split ] ].
  - vm_compute. reflexivity.
  - vm_compute. reflexivity.
  - vm_compute. reflexivity.
  - vm_compute. reflexivity.
Qed.

(** C2 with [ttl = 5.0]: written at time [0.0], read at time [5.0]. *)
Lemma get_ttl_boundary_binary64_witness :
  exists self' n,
    get Times.five_seconds (PyStr "a")
      (snd (add PrimFloat.zero (PyStr "a") (PyInt 1) None
              (__init__ None (Some Times.five_seconds)))) =
      (Ok PyNone, self')
    /\ OrderedDict.contains (PyStr "a") (_cache self') = false
    /\ __len__
         (snd (add PrimFloat.zero (PyStr "a") (PyInt 1) None
                 (__init__ None (Some Times.five_seconds)))) =
       (Ok n, snd (add PrimFloat.zero (PyStr "a") (PyInt 1) None
                     (__init__ None (Some Times.five_seconds))))
    /\ __len__ self' = (Ok (n - 1)%Z, self').
Proof.
  refine (proj2 (get_ttl_boundary_binary64
                   (__init__ None (Some Times.five_seconds))
                   Times.five_seconds (PyStr "a") (PyInt 1)
                   PrimFloat.zero None Times.five_seconds eq_refl _ _) _).
  - reflexivity.
  - constructor.
  - reflexivity.
Defined.

End Binary64Runs.
